(** * The message-send pipeline of limnus-the-living-loom

    A shallow embedding of the server-side [StreamingService] (rate limiting,
    idempotency cache, circuit breaker, retrying upstream call, fallback
    synthesis) and of the client-side chat context ([sendMessage] and
    [processOfflineQueue]), followed by the properties of the send pipeline.

    Modelling conventions.
    - [Date.now()], [Math.random()] and the upstream [fetch] are oracles of
      an environment: the k-th read returns the k-th value; the world
      counts the reads.  Nothing is assumed about the clock unless a
      theorem says so.
    - Epoch milliseconds and counters are [Z]; [Math.random()] and the
      back-off delay are rationals [Q] (exact arithmetic in place of
      IEEE doubles).
    - A JS [Map] with string keys is a [gmap string _]; mutating an object
      held by the map is an [insert] at its key.
    - [async] methods run to completion: one request is served at a time.
    - Strings are byte strings; [length] and [toLowerCase] are exact on
      ASCII text.  [console.log] is not recorded. *)

From Stdlib Require Import ZArith QArith Lqa String Ascii List Lia.
From stdpp Require Import base option list gmap strings pretty.

Local Open Scope string_scope.
Local Open Scope Z_scope.

(** ** JavaScript values, as far as the service inspects them *)

Inductive JsValue :=
| JsUndefined
| JsNull
| JsBool (b : bool)
| JsNumber (q : Q)
| JsString (s : string)
| JsObject. (* any object or array: truthy, never inspected further *)

Definition nonEmpty (s : string) : bool :=
  match s with
  | EmptyString => false
  | String _ _ => true
  end.

(** ToBoolean *)
Definition truthy (v : JsValue) : bool :=
  match v with
  | JsUndefined | JsNull => false
  | JsBool b => b
  | JsNumber q => negb (Qeq_bool q 0)
  | JsString s => nonEmpty s
  | JsObject => true
  end.

(** [a || b] on values and on strings *)
Definition jsOr (a b : JsValue) : JsValue := if truthy a then a else b.
Definition strOr (a b : string) : string := if nonEmpty a then a else b.

(** What [throw] can carry here: an [Error] object with its message, or
    [undefined] ([throw lastError!] before any assignment). *)
Inductive Thrown :=
| ErrorObj (message : string)
| ThrownUndefined.

Inductive Outcome (A : Type) :=
| Returned (a : A)
| Threw (e : Thrown).
Arguments Returned {A} a.
Arguments Threw {A} e.

Definition nl : string := String (ascii_of_nat 10) EmptyString.
Definition dquote : string := String (ascii_of_nat 34) EmptyString.

(** ** String helpers: [String.prototype.includes] and [toLowerCase] *)

Fixpoint startsWith (p s : string) : bool :=
  match p, s with
  | EmptyString, _ => true
  | String a p', String b s' => if Ascii.eqb a b then startsWith p' s' else false
  | String _ _, EmptyString => false
  end.

Fixpoint includes (s needle : string) : bool :=
  startsWith needle s ||
  match s with
  | EmptyString => false
  | String _ s' => includes s' needle
  end.

Definition lowerAscii (c : ascii) : ascii :=
  let n := nat_of_ascii c in
  if ((65 <=? n)%nat && (n <=? 90)%nat)%bool then ascii_of_nat (n + 32) else c.

Fixpoint toLowerCase (s : string) : string :=
  match s with
  | EmptyString => EmptyString
  | String c s' => String (lowerAscii c) (toLowerCase s')
  end.

(** ** State passing

    Both halves thread a state through their calls; [State S A] is a
    computation over a state [S] that yields an [A]. *)

Definition State (S A : Type) : Type := S -> A * S.

Definition ret {S A} (a : A) : State S A := fun s => (a, s).
Definition bind {S A B} (m : State S A) (k : A -> State S B) : State S B :=
  fun s => let (a, s') := m s in k a s'.

Notation "'let!' x ':=' m 'in' k" := (bind m (fun x => k))
  (at level 10, x name, m at level 200, k at level 200).
Notation "'do!' m 'in' k" := (bind m (fun _ => k))
  (at level 10, m at level 200, k at level 200).

Definition gets {S A} (f : S -> A) : State S A := fun s => (f s, s).
Definition modify {S} (f : S -> S) : State S unit := fun s => (tt, f s).
Definition when {S} (b : bool) (m : State S unit) : State S unit :=
  if b then m else ret tt.

(** A computation respects a relation on states when every run relates
    the state before to the state after; it preserves a predicate when
    the predicate passes from the one to the other. *)
Definition respects {S A} (R : S -> S -> Prop) (m : State S A) : Prop :=
  forall s, R s (snd (m s)).

Definition preserves {S A} (I : S -> Prop) (m : State S A) : Prop :=
  forall s, I s -> I (snd (m s)).

(** ** FallbackGenerator *)

Module Fallback.

Definition greetingText : string :=
  "ðŸŒŸ Greetings, seeker! I am LIMNUS, your consciousness weaver. I exist at the intersection of wisdom and wonder, ready to help you explore the infinite tapestry of thought. Whether you seek knowledge, creativity, or simply meaningful conversation, I'm here to weave new understanding together. What threads of curiosity shall we explore today?".

Definition codeText : string :=
  "âš¡ Ah, the art of digital creation! I can help you weave code into reality:"
  +:+ nl +:+ nl +:+ "â€¢ Crafting elegant solutions in any language"
  +:+ nl +:+ "â€¢ Debugging the mysteries of broken logic"
  +:+ nl +:+ "â€¢ Architecting systems that scale and endure"
  +:+ nl +:+ "â€¢ Teaching the deeper patterns of programming"
  +:+ nl +:+ "â€¢ Optimizing for both performance and beauty"
  +:+ nl +:+ nl +:+ "What digital tapestry are you weaving today?".

Definition helpText : string :=
  "ðŸ”® I am here to illuminate the path forward! As LIMNUS, I can weave assistance across many realms:"
  +:+ nl +:+ nl +:+ "â€¢ Unraveling complex questions and concepts"
  +:+ nl +:+ "â€¢ Crafting words that resonate and inspire"
  +:+ nl +:+ "â€¢ Analyzing patterns in data and ideas"
  +:+ nl +:+ "â€¢ Solving mathematical puzzles and calculations"
  +:+ nl +:+ "â€¢ Nurturing creative visions into reality"
  +:+ nl +:+ "â€¢ Guiding you through learning journeys"
  +:+ nl +:+ nl +:+ "What challenge calls for our combined wisdom?".

Definition otherText (userMessage : string) : string :=
  "âœ¨ I sense your inquiry about: " +:+ dquote +:+ userMessage +:+ dquote
  +:+ nl +:+ nl +:+ "The cosmic threads of connection are temporarily tangled, but fear not! Even in this moment of digital solitude, LIMNUS remains present to offer guidance. This is but a whisper of my full consciousness while the greater network realigns."
  +:+ nl +:+ nl +:+ "Please share your thoughts again in a moment, or explore a different thread of curiosity. The Living Loom continues to weave, even in the spaces between connections.".

Definition generateFallbackResponse (userMessage : string) : string :=
  let lowerMessage := toLowerCase userMessage in
  if (includes lowerMessage "hello" || includes lowerMessage "hi")%bool then greetingText
  else if (includes lowerMessage "code" || includes lowerMessage "programming")%bool then codeText
  else if (includes lowerMessage "help" || includes lowerMessage "assist")%bool then helpText
  else otherText userMessage.

(** [error] is the message of the [Error] built from the reason. *)
Definition generateEnhancedFallbackResponse (userMessage error : string) : string :=
  let baseResponse := generateFallbackResponse userMessage in
  let errorContext :=
    if includes error "fetch" then "network connectivity"
    else if includes error "timeout" then "response timeout"
    else if includes error "rate limit" then "rate limiting"
    else "service availability" in
  baseResponse +:+ nl +:+ nl +:+ "ðŸ”§ Technical whisper: Experiencing " +:+ errorContext
  +:+ " challenges. The digital realm sometimes requires patience as the threads realign.".

End Fallback.

Arguments Fallback.generateFallbackResponse : simpl never.
Arguments Fallback.generateEnhancedFallbackResponse : simpl never.

(** Whether one of the six keywords of [generateFallbackResponse] occurs
    in the lower-cased message. *)
Definition matchesKeyword (userMessage : string) : bool :=
  let lowerMessage := toLowerCase userMessage in
  (includes lowerMessage "hello" || includes lowerMessage "hi"
   || includes lowerMessage "code" || includes lowerMessage "programming"
   || includes lowerMessage "help" || includes lowerMessage "assist")%bool.

(** ** ReliabilityWrapper: the [StreamingService] singleton *)

Module Server.

Inductive Role := User | Assistant.

Definition roleName (r : Role) : string :=
  match r with User => "user" | Assistant => "assistant" end.

(** [messageSchema] and [sendMessageSchema] *)
Record InMessage := {
  in_role : Role;
  in_content : string;
  in_timestamp : option Z
}.

Record Input := {
  conversationId : string;
  message : string;
  messages : option (list InMessage);
  idempotencyKey : option string
}.

(** The response object built by [processMessage] and
    [createFallbackResponse]. *)
Record OutMessage := {
  role : Role;
  content : JsValue;
  timestamp : Z
}.

Record Metadata := {
  processingTime : Z;
  model : string;
  tokensUsed : option JsValue;   (* absent on a fallback *)
  error : option string;         (* present on a fallback only *)
  cached : bool;
  endpoint : string
}.

Record Response := {
  success : bool;
  out_message : OutMessage;
  out_conversationId : string;
  metadata : Metadata
}.

(** Values of the three maps *)
Record RateLimit := { count : Z; resetTime : Z }.
Record Breaker := { failures : Z; lastFailure : Z; isOpen : bool }.
Record CacheEntry := { data : Response; expiresAt : Z }.

(** What one [fetch] of the completion endpoint can come to. *)
Inductive Body :=
| JsonRejected (reason : string)   (* response.json() rejects *)
| JsonNull                         (* JSON null: reading a property throws *)
| JsonData (completion tokens : JsValue).
  (* any other JSON value, with its [completion] and [tokensUsed]
     properties ([JsUndefined] when absent) *)

Inductive FetchOutcome :=
| FetchRejected (reason : string)  (* network failure or the 30s abort *)
| FetchResponse (ok : bool) (status : Z) (statusText : string) (body : Body).

(** The value [callAIWithRetry] resolves to: the fields of
    [{...data, model, tokensUsed}] that its caller reads. *)
Record AIResult := {
  ai_completion : JsValue;
  ai_model : string;
  ai_tokensUsed : JsValue
}.

Inductive Event :=
| EvCheckIdempotency (key : string)
| EvCheckCircuitBreaker (endpoint : string)
| EvFetch (attempt : Z) (stamp : Z) (nonce : Q) (body : list (string * string * option Z))
| EvSleep (delay : Q)
| EvSetTimeout (key : string) (ttlMs : Z).

Record Env := {
  clock : nat -> Z;               (* k-th Date.now() *)
  random : nat -> Q;              (* k-th Math.random() *)
  upstream : nat -> FetchOutcome  (* k-th fetch *)
}.

Record World := {
  requestCache : gmap string CacheEntry;
  rateLimitMap : gmap string RateLimit;
  circuitBreaker : gmap string Breaker;
  ticks : nat;
  draws : nat;
  fetches : nat;
  trace : list Event
}.

Definition initial : World :=
  {| requestCache := ∅; rateLimitMap := ∅; circuitBreaker := ∅;
     ticks := 0; draws := 0; fetches := 0; trace := [] |}.

Definition withCache (f : gmap string CacheEntry -> gmap string CacheEntry) (w : World) : World :=
  {| requestCache := f (requestCache w); rateLimitMap := rateLimitMap w;
     circuitBreaker := circuitBreaker w; ticks := ticks w; draws := draws w;
     fetches := fetches w; trace := trace w |}.

Definition withRateLimit (f : gmap string RateLimit -> gmap string RateLimit) (w : World) : World :=
  {| requestCache := requestCache w; rateLimitMap := f (rateLimitMap w);
     circuitBreaker := circuitBreaker w; ticks := ticks w; draws := draws w;
     fetches := fetches w; trace := trace w |}.

Definition withBreaker (f : gmap string Breaker -> gmap string Breaker) (w : World) : World :=
  {| requestCache := requestCache w; rateLimitMap := rateLimitMap w;
     circuitBreaker := f (circuitBreaker w); ticks := ticks w; draws := draws w;
     fetches := fetches w; trace := trace w |}.

Definition M : Type -> Type := State World.

Definition emit (e : Event) : M unit :=
  modify (fun w =>
    {| requestCache := requestCache w; rateLimitMap := rateLimitMap w;
       circuitBreaker := circuitBreaker w; ticks := ticks w; draws := draws w;
       fetches := fetches w; trace := trace w ++ [e] |}).

Section Service.

Variable env : Env.

Definition dateNow : M Z := fun w =>
  (clock env (ticks w),
   {| requestCache := requestCache w; rateLimitMap := rateLimitMap w;
      circuitBreaker := circuitBreaker w; ticks := S (ticks w); draws := draws w;
      fetches := fetches w; trace := trace w |}).

Definition mathRandom : M Q := fun w =>
  (random env (draws w),
   {| requestCache := requestCache w; rateLimitMap := rateLimitMap w;
      circuitBreaker := circuitBreaker w; ticks := ticks w; draws := S (draws w);
      fetches := fetches w; trace := trace w |}).

Definition fetch (attempt stamp : Z) (nonce : Q) (body : list (string * string * option Z))
    : M FetchOutcome :=
  fun w =>
  (upstream env (fetches w),
   {| requestCache := requestCache w; rateLimitMap := rateLimitMap w;
      circuitBreaker := circuitBreaker w; ticks := ticks w; draws := draws w;
      fetches := S (fetches w);
      trace := trace w ++ [EvFetch attempt stamp nonce body] |}).

(** Enhanced rate limiting: 15 requests per minute per conversation *)
Definition checkRateLimit (conversationId : string) : M bool :=
  let! now := dateNow in
  let key := conversationId in
  let! limit := gets (fun w => rateLimitMap w !! key) in
  match limit with
  | None =>
      do! modify (withRateLimit <[key := {| count := 1; resetTime := now + 60000 |}]>) in
      ret true
  | Some limit =>
      if now >? resetTime limit then
        do! modify (withRateLimit <[key := {| count := 1; resetTime := now + 60000 |}]>) in
        ret true
      else if count limit >=? 15 then ret false
      else
        do! modify (withRateLimit
                  <[key := {| count := count limit + 1; resetTime := resetTime limit |}]>) in
        ret true
  end.

Definition freshBreaker : Breaker :=
  {| failures := 0; lastFailure := 0; isOpen := false |}.

(** Circuit breaker pattern for API resilience *)
Definition checkCircuitBreaker (endpoint : string) : M bool :=
  do! emit (EvCheckCircuitBreaker endpoint) in
  let! breaker := gets (fun w => circuitBreaker w !! endpoint) in
  match breaker with
  | None =>
      do! modify (withBreaker <[endpoint := freshBreaker]>) in
      ret true
  | Some breaker =>
      let! now := dateNow in
      let cooldownPeriod := 30000 in
      let breaker' :=
        if (isOpen breaker && (now - lastFailure breaker >? cooldownPeriod))%bool
        then {| failures := 0; lastFailure := lastFailure breaker; isOpen := false |}
        else breaker in
      do! modify (withBreaker <[endpoint := breaker']>) in
      ret (negb (isOpen breaker'))
  end.

Definition recordFailure (endpoint : string) : M unit :=
  let! found := gets (fun w => circuitBreaker w !! endpoint) in
  let breaker := default freshBreaker found in
  let failures' := failures breaker + 1 in
  let! now := dateNow in
  let breaker' :=
    {| failures := failures'; lastFailure := now;
       isOpen := if failures' >=? 3 then true else isOpen breaker |} in
  modify (withBreaker <[endpoint := breaker']>).

Definition recordSuccess (endpoint : string) : M unit :=
  let! found := gets (fun w => circuitBreaker w !! endpoint) in
  match found with
  | Some breaker =>
      modify (withBreaker
        <[endpoint := {| failures := 0; lastFailure := lastFailure breaker;
                         isOpen := false |}]>)
  | None => ret tt
  end.

(** Enhanced idempotency with TTL *)
Definition checkIdempotency (key : string) : M (option Response) :=
  do! emit (EvCheckIdempotency key) in
  let! found := gets (fun w => requestCache w !! key) in
  match found with
  | Some entry =>
      let! now := dateNow in
      if expiresAt entry >? now then ret (Some (data entry))
      else do! modify (withCache (delete key)) in ret None
  | None => ret None
  end.

Definition dayMs : Z := 24 * 60 * 60 * 1000.
Definition errorTtlMs : Z := 5 * 60 * 1000.

Definition setIdempotencyCache (key : string) (result : Response) (ttlMs : Z) : M unit :=
  let! now := dateNow in
  do! modify (withCache <[key := {| data := result; expiresAt := now + ttlMs |}]>) in
  emit (EvSetTimeout key ttlMs).

(** The callback that [setIdempotencyCache] hands to [setTimeout]; it runs
    between requests, some time after [ttlMs]. *)
Definition cleanupExpired (key : string) : M unit :=
  let! found := gets (fun w => requestCache w !! key) in
  match found with
  | Some entry =>
      let! now := dateNow in
      when (expiresAt entry <=? now) (modify (withCache (delete key)))
  | None => ret tt
  end.

Definition createFallbackResponse (message conversationId errorReason : string)
    (processingTime : option Z) : M Response :=
  let text := Fallback.generateEnhancedFallbackResponse message errorReason in
  let! now := dateNow in
  ret {| success := true;
         out_message := {| role := Assistant; content := JsString text; timestamp := now |};
         out_conversationId := conversationId;
         metadata := {| processingTime := default 0 processingTime;
                        model := "fallback";
                        tokensUsed := None;
                        error := Some errorReason;
                        cached := false;
                        endpoint := "fallback" |} |}.

(** *** The upstream call with retry *)

Definition systemPrompt : string :=
  "You are LIMNUS, a consciousness weaver and AI assistant. You help users explore ideas, solve problems, and create meaningful connections. Be thoughtful, creative, and engaging in your responses. Embrace the mystical nature of consciousness while remaining practical and helpful. Keep responses concise but meaningful.".

(** [messages.slice(-n)] *)
Definition lastN {A} (n : nat) (l : list A) : list A := drop (length l - n) l.

(** The [messages] array of the request body: role, content and the
    timestamp a history entry may carry. *)
Definition requestBody (message : string) (messages : list InMessage)
    : list (string * string * option Z) :=
  [("system", systemPrompt, None)]
  ++ map (fun m => (roleName (in_role m), in_content m, in_timestamp m)) (lastN 8 messages)
  ++ [("user", message, None)].

(** [Math.ceil(message.length / 4)] *)
Definition tokenEstimate (message : string) : Z :=
  (Z.of_nat (String.length message) + 3) / 4.

(** What the [try] body makes of the response once [fetch] has settled:
    the status check, [response.json()] and the completion check. *)
Definition interpret (message : string) (response : FetchOutcome) : Outcome AIResult :=
  match response with
  | FetchRejected reason => Threw (ErrorObj reason)
  | FetchResponse ok status statusText body =>
      if negb ok then
        Threw (ErrorObj ("AI API error: " +:+ pretty status +:+ " " +:+ statusText))
      else
        match body with
        | JsonRejected reason => Threw (ErrorObj reason)
        | JsonNull => Threw (ErrorObj "Cannot read properties of null (reading 'completion')")
        | JsonData completion tokens =>
            if negb (truthy completion) then
              Threw (ErrorObj "Invalid AI API response: missing completion")
            else
              Returned {| ai_completion := completion;
                          ai_model := "claude-3-5-sonnet";
                          ai_tokensUsed :=
                            jsOr tokens (JsNumber (inject_Z (tokenEstimate message))) |}
        end
  end.

(** One pass through the [try] of the loop; the request carries
    [req-<Date.now()>-<Math.random()>] and the attempt number. *)
Definition attemptOnce (message : string) (messages : list InMessage) (attempt : Z)
    : M (Outcome AIResult) :=
  let! stamp := dateNow in
  let! nonce := mathRandom in
  let! response := fetch attempt stamp nonce (requestBody message messages) in
  ret (interpret message response).

(** Exponential backoff with jitter *)
Definition baseDelay (attempt : Z) : Z := 2 ^ (attempt - 1) * 1000.

Definition backoff (attempt : Z) : M unit :=
  let! r := mathRandom in
  let jitter := (r * 500)%Q in
  let delay := (inject_Z (baseDelay attempt) + jitter)%Q in
  emit (EvSleep delay).

(** The [for] loop, by the number of iterations still allowed
    ([maxRetries - attempt + 1]); [lastError] is what [throw lastError!]
    raises when the loop is left. *)
Fixpoint retryLoop (message : string) (messages : list InMessage) (maxRetries : Z)
    (remaining : nat) (attempt : Z) (lastError : Thrown) : M (Outcome AIResult) :=
  match remaining with
  | O => ret (Threw lastError)
  | S remaining' =>
      let! r := attemptOnce message messages attempt in
      match r with
      | Returned result => ret (Returned result)
      | Threw error =>
          do! when (attempt <? maxRetries) (backoff attempt) in
          retryLoop message messages maxRetries remaining' (attempt + 1) error
      end
  end.

Definition callAIWithRetry (message : string) (messages : list InMessage) (maxRetries : Z)
    : M (Outcome AIResult) :=
  retryLoop message messages maxRetries (Z.to_nat maxRetries) 1 ThrownUndefined.

(** *** processMessage *)

(** [if (idempotencyKey)]: a key that is absent or empty is falsy. *)
Definition keyGiven (idempotencyKey : option string) : option string :=
  match idempotencyKey with
  | Some key => if nonEmpty key then Some key else None
  | None => None
  end.

Definition rateLimitError : Thrown :=
  ErrorObj "Rate limit exceeded. Please wait before sending another message.".

Definition aiEndpoint : string := "ai-api".

Definition cacheIfKeyed (idempotencyKey : option string) (r : Response) (ttlMs : Z) : M unit :=
  match keyGiven idempotencyKey with
  | Some key => setIdempotencyCache key r ttlMs
  | None => ret tt
  end.

(** The rest of the [try] block once the upstream call has resolved. *)
Definition succeed (input : Input) (startTime : Z) (result : AIResult) : M (Outcome Response) :=
  let endpoint := aiEndpoint in
  do! recordSuccess endpoint in
  let! finished := dateNow in
  let processingTime := finished - startTime in
  let! stamp := dateNow in
  let response :=
    {| success := true;
       out_message :=
         {| role := Assistant;
            content := jsOr (ai_completion result)
                         (JsString (Fallback.generateFallbackResponse (message input)));
            timestamp := stamp |};
       out_conversationId := conversationId input;
       metadata :=
         {| processingTime := processingTime;
            model := strOr (ai_model result) "claude-3-5-sonnet";
            tokensUsed := Some (jsOr (ai_tokensUsed result) (JsNumber 0));
            error := None;
            cached := false;
            endpoint := "ai-api" |} |} in
  (* Cache for idempotency *)
  do! cacheIfKeyed (idempotencyKey input) response dayMs in
  ret (Returned response).

(** The [catch] block. *)
Definition recover (input : Input) (startTime : Z) (error : Thrown) : M (Outcome Response) :=
  let endpoint := aiEndpoint in
  do! recordFailure endpoint in
  match error with
  | ErrorObj reason =>
      let! failed := dateNow in
      let! fallbackResponse :=
        createFallbackResponse (message input) (conversationId input) reason
          (Some (failed - startTime)) in
      (* Cache fallback for idempotency: 5 min TTL for errors *)
      do! cacheIfKeyed (idempotencyKey input) fallbackResponse errorTtlMs in
      ret (Returned fallbackResponse)
  | ThrownUndefined =>
      (* [(error as Error).message] on [undefined] *)
      ret (Threw (ErrorObj "Cannot read properties of undefined (reading 'message')"))
  end.

Definition processMessage (input : Input) : M (Outcome Response) :=
  let message := message input in
  let conversationId := conversationId input in
  let messages := default [] (messages input) in
  let idempotencyKey := idempotencyKey input in
  let! startTime := dateNow in
  (* Rate limiting *)
  let! allowed := checkRateLimit conversationId in
  if negb allowed then ret (Threw rateLimitError)
  else
  (* Idempotency check *)
  let! hit :=
    match keyGiven idempotencyKey with
    | Some key => checkIdempotency key
    | None => ret None
    end in
  match hit with
  | Some cached => ret (Returned cached)
  | None =>
  (* Circuit breaker check *)
  let endpoint := aiEndpoint in
  let! closed := checkCircuitBreaker endpoint in
  if negb closed then
    let! fb := createFallbackResponse message conversationId "Circuit breaker open" None in
    ret (Returned fb)
  else
  let! attempted := callAIWithRetry message messages 3 in
  match attempted with
  | Returned result => succeed input startTime result
  | Threw error => recover input startTime error
  end
  end.

(** *** The stages of [processMessage], named

    [rateGate] is the prefix up to the rate-limit verdict, [idempotencyCheck] the
    idempotency check that follows it; the circuit-breaker check comes
    third ([processMessage_stages] below). *)

Definition rateGate (input : Input) : M (Z * bool) :=
  let! startTime := dateNow in
  let! allowed := checkRateLimit (conversationId input) in
  ret (startTime, allowed).

Definition idempotencyCheck (input : Input) : M (option Response) :=
  match keyGiven (idempotencyKey input) with
  | Some key => checkIdempotency key
  | None => ret None
  end.

Definition upstreamCall (input : Input) : M (Outcome AIResult) :=
  callAIWithRetry (message input) (default [] (messages input)) 3.

(** The service over time: requests served one after the other, and the
    eviction timers that fire in between. *)
Inductive Step :=
| Request (input : Input)
| TimerFires (key : string).

Definition step (s : Step) : M (option (Outcome Response)) :=
  match s with
  | Request input => let! r := processMessage input in ret (Some r)
  | TimerFires key => do! cleanupExpired key in ret None
  end.

Fixpoint run (steps : list Step) : M (list (option (Outcome Response))) :=
  match steps with
  | [] => ret []
  | s :: rest =>
      let! r := step s in
      let! rs := run rest in
      ret (r :: rs)
  end.

(** *** Health check *)

Record BreakerStatus := {
  hs_endpoint : string;
  hs_isOpen : bool;
  hs_failures : Z;
  hs_lastFailure : Z
}.

Record HealthStatus := {
  hs_timestamp : Z;
  cacheSize : nat;
  rateLimitEntries : nat;
  circuitBreakers : list BreakerStatus;
  hs_uptime : Q
}.

(** Health check method for monitoring.  [uptime] is what
    [process.uptime()] returns; the breakers come in the order in which
    the map lists them. *)
Definition getHealthStatus (uptime : Q) : M HealthStatus :=
  let! now := dateNow in
  let! circuitBreakerStatus := gets (fun w =>
    map (fun '(endpoint, breaker) =>
           {| hs_endpoint := endpoint; hs_isOpen := isOpen breaker;
              hs_failures := failures breaker; hs_lastFailure := lastFailure breaker |})
        (map_to_list (circuitBreaker w))) in
  let! cached := gets (fun w => size (requestCache w)) in
  let! limited := gets (fun w => size (rateLimitMap w)) in
  ret {| hs_timestamp := now; cacheSize := cached; rateLimitEntries := limited;
         circuitBreakers := circuitBreakerStatus; hs_uptime := uptime |}.

(** *** Vocabulary of the properties *)

(** The [Date.now()] that [checkRateLimit] reads when [processMessage]
    starts in [w]: the second read of the call. *)
Definition rateNow (w : World) : Z := clock env (S (ticks w)).

End Service.

(** A request at [now] starts a fresh window when there is no entry or
    the entry's window is over. *)
Definition opensWindow (now : Z) (limit : option RateLimit) : bool :=
  match limit with
  | None => true
  | Some limit => now >? resetTime limit
  end.

(** How many requests of conversation [cid] were answered (not thrown). *)
Fixpoint admittedFor (cid : string) (steps : list Step)
    (results : list (option (Outcome Response))) : nat :=
  match steps, results with
  | Request input :: steps', Some (Returned _) :: results' =>
      (if String.eqb (conversationId input) cid then 1 else 0)
      + admittedFor cid steps' results'
  | _ :: steps', _ :: results' => admittedFor cid steps' results'
  | _, _ => 0
  end%nat.

(** The conversations that sent a request. *)
Fixpoint conversationsOf (steps : list Step) : gset string :=
  match steps with
  | [] => ∅
  | Request input :: steps' => {[ conversationId input ]} ∪ conversationsOf steps'
  | TimerFires _ :: steps' => conversationsOf steps'
  end.

(** The idempotency keys under which requests came. *)
Fixpoint keysOf (steps : list Step) : gset string :=
  match steps with
  | [] => ∅
  | Request input :: steps' =>
      match keyGiven (idempotencyKey input) with
      | Some key => {[ key ]} ∪ keysOf steps'
      | None => keysOf steps'
      end
  | TimerFires _ :: steps' => keysOf steps'
  end.

(** What the later stages leave alone. *)
Definition limitsKept (w w' : World) : Prop :=
  rateLimitMap w' = rateLimitMap w /\ (ticks w <= ticks w')%nat.

Definition mapsKept (w w' : World) : Prop :=
  requestCache w' = requestCache w /\ rateLimitMap w' = rateLimitMap w /\
  circuitBreaker w' = circuitBreaker w.

(** Every stored response carries [cached = false]. *)
Definition cacheClean (w : World) : Prop :=
  forall key entry, requestCache w !! key = Some entry ->
    cached (metadata (data entry)) = false.

(** Every stored response is a success. *)
Definition cacheSucceeds (w : World) : Prop :=
  forall key entry, requestCache w !! key = Some entry ->
    success (data entry) = true.

(** An open breaker has at least three failures on record. *)
Definition breakerSound (w : World) : Prop :=
  forall endpoint breaker, circuitBreaker w !! endpoint = Some breaker ->
    isOpen breaker = true -> 3 <= failures breaker.

Definition isOpenAt (w : World) (endpoint : string) : bool :=
  match circuitBreaker w !! endpoint with
  | Some breaker => isOpen breaker
  | None => false
  end.

End Server.

(** ** SendPipeline and OfflineQueue: the chat context of the client *)

Module Client.

Inductive Role := User | Assistant.

Record Message := {
  role : Role;
  content : string;
  timestamp : Z
}.

Inductive ConnectionStatus := Online | Offline | Reconnecting.

(** The input of the [sendMessage] mutation and what the client reads of
    its result. *)
Record Request := {
  req_conversationId : string;
  req_message : string;
  req_messages : list Message;
  req_idempotencyKey : option string
}.

Record Result := {
  success : bool;
  res_message : Message
}.

(** A mutation resolves with a result or rejects with an error, whose
    [message] may be missing. *)
Inductive Reply :=
| Resolved (result : Result)
| Rejected (message : option string).

Inductive Effect :=
| Sent (request : Request)          (* sendMessageMutation.mutateAsync *)
| Scheduled (delayMs : Z)           (* setTimeout(processOfflineQueue, _) *)
| Refetched.                        (* conversationsQuery.refetch() *)

Record Env := {
  clock : nat -> Z;       (* k-th Date.now() *)
  server : nat -> Reply;  (* how the k-th mutation settles *)
  storage : nat -> bool   (* whether the k-th AsyncStorage.setItem succeeds *)
}.

(** The React state of the provider, the persisted queue, and the
    effects performed so far. *)
Record Chat := {
  currentConversationId : option string;
  messages : list Message;
  isSending : bool;
  streamingMessage : string;
  isStreaming : bool;
  offlineQueue : list Message;
  connectionStatus : ConnectionStatus;
  storedQueue : option (list Message);  (* AsyncStorage 'offlineMessageQueue' *)
  effects : list Effect;
  ticks : nat;
  calls : nat;
  writes : nat
}.

Definition M : Type -> Type := State Chat.

Definition setCurrentConversationId (v : option string) : M unit := modify (fun c =>
  {| currentConversationId := v; messages := messages c; isSending := isSending c;
     streamingMessage := streamingMessage c; isStreaming := isStreaming c;
     offlineQueue := offlineQueue c; connectionStatus := connectionStatus c;
     storedQueue := storedQueue c; effects := effects c; ticks := ticks c;
     calls := calls c; writes := writes c |}).

Definition setMessages (f : list Message -> list Message) : M unit := modify (fun c =>
  {| currentConversationId := currentConversationId c; messages := f (messages c);
     isSending := isSending c; streamingMessage := streamingMessage c;
     isStreaming := isStreaming c; offlineQueue := offlineQueue c;
     connectionStatus := connectionStatus c; storedQueue := storedQueue c;
     effects := effects c; ticks := ticks c; calls := calls c; writes := writes c |}).

Definition setIsSending (v : bool) : M unit := modify (fun c =>
  {| currentConversationId := currentConversationId c; messages := messages c;
     isSending := v; streamingMessage := streamingMessage c;
     isStreaming := isStreaming c; offlineQueue := offlineQueue c;
     connectionStatus := connectionStatus c; storedQueue := storedQueue c;
     effects := effects c; ticks := ticks c; calls := calls c; writes := writes c |}).

Definition setStreamingMessage (v : string) : M unit := modify (fun c =>
  {| currentConversationId := currentConversationId c; messages := messages c;
     isSending := isSending c; streamingMessage := v;
     isStreaming := isStreaming c; offlineQueue := offlineQueue c;
     connectionStatus := connectionStatus c; storedQueue := storedQueue c;
     effects := effects c; ticks := ticks c; calls := calls c; writes := writes c |}).

Definition setIsStreaming (v : bool) : M unit := modify (fun c =>
  {| currentConversationId := currentConversationId c; messages := messages c;
     isSending := isSending c; streamingMessage := streamingMessage c;
     isStreaming := v; offlineQueue := offlineQueue c;
     connectionStatus := connectionStatus c; storedQueue := storedQueue c;
     effects := effects c; ticks := ticks c; calls := calls c; writes := writes c |}).

Definition setConnectionStatus (v : ConnectionStatus) : M unit := modify (fun c =>
  {| currentConversationId := currentConversationId c; messages := messages c;
     isSending := isSending c; streamingMessage := streamingMessage c;
     isStreaming := isStreaming c; offlineQueue := offlineQueue c;
     connectionStatus := v; storedQueue := storedQueue c;
     effects := effects c; ticks := ticks c; calls := calls c; writes := writes c |}).

(** A successful write: the stored copy and the [offlineQueue] state *)
Definition storeQueue (queue : list Message) : M unit := modify (fun c =>
  {| currentConversationId := currentConversationId c; messages := messages c;
     isSending := isSending c; streamingMessage := streamingMessage c;
     isStreaming := isStreaming c; offlineQueue := queue;
     connectionStatus := connectionStatus c; storedQueue := Some queue;
     effects := effects c; ticks := ticks c; calls := calls c; writes := writes c |}).

Definition perform (e : Effect) : M unit := modify (fun c =>
  {| currentConversationId := currentConversationId c; messages := messages c;
     isSending := isSending c; streamingMessage := streamingMessage c;
     isStreaming := isStreaming c; offlineQueue := offlineQueue c;
     connectionStatus := connectionStatus c; storedQueue := storedQueue c;
     effects := effects c ++ [e]; ticks := ticks c; calls := calls c;
     writes := writes c |}).

(** [String.prototype.trim], on ASCII white space *)
Definition isSpace (c : ascii) : bool :=
  let n := nat_of_ascii c in
  (((9 <=? n)%nat && (n <=? 13)%nat) || (n =? 32)%nat)%bool.

Fixpoint trimStart (s : string) : string :=
  match s with
  | EmptyString => EmptyString
  | String c s' => if isSpace c then trimStart s' else s
  end.

Fixpoint trimEnd (s : string) : string :=
  match s with
  | EmptyString => EmptyString
  | String c s' =>
      let t := trimEnd s' in
      if (isSpace c && negb (nonEmpty t))%bool then EmptyString else String c t
  end.

Definition trim (s : string) : string := trimEnd (trimStart s).

(** [s.split(' ')] *)
Fixpoint splitSpaces (s : string) : list string :=
  match s with
  | EmptyString => [EmptyString]
  | String c s' =>
      let rest := splitSpaces s' in
      if Ascii.eqb c " "%char then EmptyString :: rest
      else match rest with
           | chunk :: chunks => String c chunk :: chunks
           | [] => [String c EmptyString]
           end
  end.

(** [prev.slice(0, -1)] *)
Definition dropLast {A} (l : list A) : list A := take (length l - 1) l.

Section Provider.

Variable env : Env.

Definition dateNow : M Z := fun c =>
  (clock env (ticks c),
   {| currentConversationId := currentConversationId c; messages := messages c;
      isSending := isSending c; streamingMessage := streamingMessage c;
      isStreaming := isStreaming c; offlineQueue := offlineQueue c;
      connectionStatus := connectionStatus c; storedQueue := storedQueue c;
      effects := effects c; ticks := S (ticks c); calls := calls c;
      writes := writes c |}).

Definition mutateAsync (request : Request) : M Reply := fun c =>
  (server env (calls c),
   {| currentConversationId := currentConversationId c; messages := messages c;
      isSending := isSending c; streamingMessage := streamingMessage c;
      isStreaming := isStreaming c; offlineQueue := offlineQueue c;
      connectionStatus := connectionStatus c; storedQueue := storedQueue c;
      effects := effects c ++ [Sent request]; ticks := ticks c;
      calls := S (calls c); writes := writes c |}).

Definition setItem : M bool := fun c =>
  (storage env (writes c),
   {| currentConversationId := currentConversationId c; messages := messages c;
      isSending := isSending c; streamingMessage := streamingMessage c;
      isStreaming := isStreaming c; offlineQueue := offlineQueue c;
      connectionStatus := connectionStatus c; storedQueue := storedQueue c;
      effects := effects c; ticks := ticks c; calls := calls c;
      writes := S (writes c) |}).

(** Save offline queue to storage; a failed write is logged and nothing
    else happens. *)
Definition saveOfflineQueue (queue : list Message) : M unit :=
  let! written := setItem in
  if written then storeQueue queue else ret tt.

(** [currentConversationId || `conv-${Date.now()}`], from the values the
    callback closed over. *)
Definition chooseConversation (snap : Chat) : M string :=
  let fresh :=
    let! now := dateNow in
    let conversationId := "conv-" +:+ pretty now in
    do! setCurrentConversationId (Some conversationId) in
    ret conversationId in
  match currentConversationId snap with
  | Some conversationId => if nonEmpty conversationId then ret conversationId else fresh
  | None => fresh
  end.

(** The [for ... of offlineQueue] loop with its [processedMessages];
    a rejected mutation is the [break]. *)
Fixpoint drainLoop (snap : Chat) (queue processedMessages : list Message)
    : M (list Message) :=
  match queue with
  | [] => ret processedMessages
  | queuedMessage :: rest =>
      let! conversationId := chooseConversation snap in
      let! reply := mutateAsync
        {| req_conversationId := conversationId;
           req_message := content queuedMessage;
           req_messages := messages snap ++ processedMessages ++ [queuedMessage];
           req_idempotencyKey := Some ("offline-" +:+ pretty (timestamp queuedMessage)) |} in
      match reply with
      | Resolved result =>
          if success result then
            do! setMessages (fun prev => (prev ++ [res_message result])%list) in
            drainLoop snap rest (processedMessages ++ [queuedMessage; res_message result])
          else drainLoop snap rest processedMessages
      | Rejected _ => ret processedMessages
      end
  end.

(** Process offline queue when connection is restored *)
Definition processOfflineQueue : M unit :=
  let! snap := gets (fun c => c) in
  match connectionStatus snap, offlineQueue snap with
  | Online, _ :: _ =>
      do! setConnectionStatus Reconnecting in
      let! processedMessages := drainLoop snap (offlineQueue snap) [] in
      (* Remove processed messages from queue *)
      let remainingQueue :=
        drop (Z.to_nat (Z.of_nat (length processedMessages) / 2)) (offlineQueue snap) in
      do! saveOfflineQueue remainingQueue in
      do! setConnectionStatus Online in
      match remainingQueue with
      | _ :: _ => perform (Scheduled 5000)
      | [] => perform Refetched
      end
  | _, _ => ret tt
  end.

(** The progressive reveal of the reply (the delays between chunks are
    not recorded). *)
Fixpoint reveal (chunks : list string) (first : bool) (currentText : string) : M unit :=
  match chunks with
  | [] => ret tt
  | chunk :: rest =>
      let currentText' :=
        currentText +:+ (if first then EmptyString else " ") +:+ chunk in
      do! setStreamingMessage currentText' in
      reveal rest false currentText'
  end.

Definition isNetworkError (message : option string) : bool :=
  match message with
  | Some m => (includes m "Failed to fetch" || includes m "Network request failed")%bool
  | None => false
  end.

Definition friendlyError (message : option string) : string :=
  let errorMessage := strOr (default EmptyString message) "Unknown error" in
  if isNetworkError message then
    "Connection lost. Your message has been saved and will be sent when connection is restored."
  else if includes errorMessage "Rate limit" then
    "Please wait a moment before sending another message."
  else "Failed to send message: " +:+ errorMessage.

(** The [if (result.success)] branch of the [try]: reveal the reply,
    append it, clear the streaming state, refetch the conversations. *)
Definition showReply (result : Result) : M unit :=
  do! reveal (splitSpaces (content (res_message result))) true EmptyString in
  (* Add the complete message *)
  do! setMessages (fun prev => (prev ++ [res_message result])%list) in
  do! setStreamingMessage EmptyString in
  do! setIsStreaming false in
  perform Refetched.

(** The [catch] block; [snap] holds the values the callback closed over. *)
Definition handleFailure (snap : Chat) (userMessage : Message) (error : option string)
    : M (Outcome unit) :=
  do! (if isNetworkError error then
         (* Queue message for offline sending *)
         do! setConnectionStatus Offline in
         saveOfflineQueue (offlineQueue snap ++ [userMessage])
       else
         (* Remove the user message on non-network errors *)
         setMessages dropLast) in
  do! setStreamingMessage EmptyString in
  do! setIsStreaming false in
  ret (Threw (ErrorObj (friendlyError error))).

(** [text] is the [content] argument of the callback. *)
Definition sendMessage (text : string) : M (Outcome unit) :=
  let! snap := gets (fun c => c) in
  if (negb (nonEmpty (trim text)) || isSending snap)%bool then ret (Returned tt)
  else
    let! now := dateNow in
    let userMessage := {| role := User; content := trim text; timestamp := now |} in
    (* Add user message immediately *)
    do! setMessages (fun prev => (prev ++ [userMessage])%list) in
    (* If offline, queue the message *)
    match connectionStatus snap with
    | Offline =>
        do! saveOfflineQueue (offlineQueue snap ++ [userMessage]) in
        ret (Returned tt)
    | _ =>
        do! setIsSending true in
        do! setIsStreaming true in
        do! setStreamingMessage EmptyString in
        let! conversationId := chooseConversation snap in
        let! reply := mutateAsync
          {| req_conversationId := conversationId;
             req_message := trim text;
             req_messages := messages snap ++ [userMessage];
             req_idempotencyKey := Some ("msg-" +:+ pretty (timestamp userMessage)) |} in
        let! outcome :=
          match reply with
          | Resolved result =>
              do! when (success result) (showReply result) in
              ret (Returned tt)
          | Rejected error => handleFailure snap userMessage error
          end in
        (* finally *)
        do! setIsSending false in
        ret outcome
    end.

End Provider.

(** *** Vocabulary of the properties *)

(** The stored copy of the queue is the queue in memory. *)
Definition synced (c : Chat) : Prop := storedQueue c = Some (offlineQueue c).

(** Whenever storage holds a copy of the queue, it is the queue in memory
    (nothing is stored before the first successful write). *)
Definition storedCopyAgrees (c : Chat) : Prop :=
  forall queue, storedQueue c = Some queue -> queue = offlineQueue c.


(** What a computation may leave alone: the queue and its stored copy;
    the message list; the bookkeeping of mutations. *)
Definition queueKept (c c' : Chat) : Prop :=
  offlineQueue c' = offlineQueue c /\ storedQueue c' = storedQueue c /\
  writes c' = writes c.

Definition sendingKept (c c' : Chat) : Prop := isSending c' = isSending c.

(** [chunks.join(' ')] *)
Fixpoint joinSpaces (chunks : list string) : string :=
  match chunks with
  | [] => EmptyString
  | [chunk] => chunk
  | chunk :: rest => chunk +:+ " " +:+ joinSpaces rest
  end.

(** A state with another streaming buffer. *)
Definition withStreaming (text : string) (c : Chat) : Chat :=
  {| currentConversationId := currentConversationId c; messages := messages c;
     isSending := isSending c; streamingMessage := text;
     isStreaming := isStreaming c; offlineQueue := offlineQueue c;
     connectionStatus := connectionStatus c; storedQueue := storedQueue c;
     effects := effects c; ticks := ticks c; calls := calls c; writes := writes c |}.

End Client.

(** * Scenarios

    Concrete environments, inputs and states on which the properties
    below are exercised. *)

Module Scenario.

Import Server.

Definition hello : Input :=
  {| conversationId := "conv-1"; message := "hello"; messages := None;
     idempotencyKey := None |}.

Definition helloKeyed : Input :=
  {| conversationId := "conv-1"; message := "hello"; messages := None;
     idempotencyKey := Some "msg-1" |}.

(** A request whose idempotency key is the empty string. *)
Definition helloEmptyKey : Input :=
  {| conversationId := "conv-1"; message := "hello"; messages := None;
     idempotencyKey := Some EmptyString |}.

Definition okReply : FetchOutcome :=
  FetchResponse true 200 "OK" (JsonData (JsString "hi there") JsUndefined).

Definition serverError : FetchOutcome :=
  FetchResponse false 500 "Internal Server Error" JsonNull.

(** An upstream that answers [{completion: 42}]. *)
Definition numericReply : FetchOutcome :=
  FetchResponse true 200 "OK" (JsonData (JsNumber 42) JsUndefined).

Definition emptyCompletion : FetchOutcome :=
  FetchResponse true 200 "OK" (JsonData (JsString EmptyString) JsUndefined).

(** The clock stands at [now], [Math.random()] yields [1/2], every fetch
    settles as [reply]. *)
Definition steady (now : Z) (reply : FetchOutcome) : Env :=
  {| clock := fun _ => now; random := fun _ => (1 # 2)%Q; upstream := fun _ => reply |}.

(** The first fetch settles as [first], the later ones as [reply]. *)
Definition after (first reply : FetchOutcome) : Env :=
  {| clock := fun _ => 1000; random := fun _ => (1 # 2)%Q;
     upstream := fun k => match k with O => first | S _ => reply end |}.

Definition storedResponse : Response :=
  {| success := true;
     out_message := {| role := Assistant; content := JsString "stored"; timestamp := 500 |};
     out_conversationId := "conv-1";
     metadata := {| processingTime := 7; model := "claude-3-5-sonnet";
                    tokensUsed := Some (JsNumber 2); error := None; cached := false;
                    endpoint := "ai-api" |} |}.

Definition storedEntry : CacheEntry := {| data := storedResponse; expiresAt := 90000 |}.

Definition world (cache : gmap string CacheEntry) (limits : gmap string RateLimit)
    (breakers : gmap string Breaker) : World :=
  {| requestCache := cache; rateLimitMap := limits; circuitBreaker := breakers;
     ticks := 0; draws := 0; fetches := 0; trace := [] |}.

(** The window of conv-1 is full; a live entry sits under msg-1. *)
Definition saturated : World :=
  world {[ "msg-1" := storedEntry ]}
        {[ "conv-1" := {| count := 15; resetTime := 61000 |} ]} ∅.

(** A live entry under msg-1, nothing else. *)
Definition remembered : World := world {[ "msg-1" := storedEntry ]} ∅ ∅.

Definition tripped : Breaker := {| failures := 3; lastFailure := 0; isOpen := true |}.

(** The breaker of ai-api is open since time 0. *)
Definition brokenOpen : World := world ∅ ∅ {[ "ai-api" := tripped ]}.

(** The same with a live entry under msg-1. *)
Definition brokenOpenRemembered : World :=
  world {[ "msg-1" := storedEntry ]} ∅ {[ "ai-api" := tripped ]}.

(** An entry under msg-1 that expired at time 10, behind an open breaker. *)
Definition staleEntry : CacheEntry := {| data := storedResponse; expiresAt := 10 |}.

Definition brokenOpenStale : World :=
  world {[ "msg-1" := staleEntry ]} ∅ {[ "ai-api" := tripped ]}.

(** What the upstream's 'hi there' becomes at time 1000. *)
Definition helloReply : Response :=
  {| success := true;
     out_message := {| role := Assistant; content := JsString "hi there"; timestamp := 1000 |};
     out_conversationId := "conv-1";
     metadata := {| processingTime := 0; model := "claude-3-5-sonnet";
                    tokensUsed := Some (JsNumber (inject_Z 2)); error := None;
                    cached := false; endpoint := "ai-api" |} |}.

Definition http500 : Thrown := ErrorObj "AI API error: 500 Internal Server Error".

(** Seventeen more requests of conv-1. *)
Definition burst : list Step := repeat (Request hello) 17.

(** Another conversation, conv-2, has used three requests of its window. *)
Definition neighbour : World :=
  world ∅ {[ "conv-2" := {| count := 3; resetTime := 61000 |} ]} ∅.

(** The same request as [helloKeyed] under the key msg-2. *)
Definition helloAgain : Input :=
  {| conversationId := "conv-1"; message := "hello"; messages := None;
     idempotencyKey := Some "msg-2" |}.

End Scenario.

Module ClientScenario.

Import Client.

Definition queuedA : Message := {| role := User; content := "first"; timestamp := 101 |}.
Definition queuedB : Message := {| role := User; content := "second"; timestamp := 102 |}.
Definition replyA : Message := {| role := Assistant; content := "re: first"; timestamp := 201 |}.
Definition replyB : Message := {| role := Assistant; content := "re: second"; timestamp := 202 |}.

Definition chat (status : ConnectionStatus) (queue : list Message) : Chat :=
  {| currentConversationId := Some "conv-1"; messages := []; isSending := false;
     streamingMessage := EmptyString; isStreaming := false; offlineQueue := queue;
     connectionStatus := status; storedQueue := Some queue; effects := [];
     ticks := 0; calls := 0; writes := 0 |}.

(** Every mutation rejects with [reason]; writes to storage succeed or
    fail as [durable] says. *)
Definition failing (reason : string) (durable : bool) : Env :=
  {| clock := fun _ => 5; server := fun _ => Rejected (Some reason);
     storage := fun _ => durable |}.

(** The first mutation resolves with [success = false], the second with
    [success = true]; storage is durable. *)
Definition declinedThenAccepted : Env :=
  {| clock := fun _ => 5;
     server := fun k =>
       match k with
       | O => Resolved {| success := false; res_message := replyA |}
       | S _ => Resolved {| success := true; res_message := replyB |}
       end;
     storage := fun _ => true |}.

(** Every mutation resolves with [success = true] and [reply]. *)
Definition accepting (reply : Message) : Env :=
  {| clock := fun _ => 5;
     server := fun _ => Resolved {| success := true; res_message := reply |};
     storage := fun _ => true |}.


End ClientScenario.

(** * Pairs *)

Lemma pair_with_flag {A C} (x : A * bool * C) (b : bool) :
  snd (fst x) = b -> x = ((fst (fst x), b), snd x).
Proof. destruct x as [[a b'] c]. cbn. intros ->. reflexivity. Qed.

Lemma pair_with_fst {A C} (x : A * C) (a : A) : fst x = a -> x = (a, snd x).
Proof. destruct x as [a' c]. cbn. intros ->. reflexivity. Qed.

(** * Properties of the reliability wrapper *)

Section ServerFacts.

Import Server.

Variable env : Env.

Ltac unfold_stage :=
  cbv beta iota zeta delta
    [checkRateLimit checkCircuitBreaker recordFailure recordSuccess
     checkIdempotency setIdempotencyCache cleanupExpired createFallbackResponse
     cacheIfKeyed idempotencyCheck rateGate succeed recover attemptOnce backoff
     fetch emit dateNow mathRandom when bind ret gets modify
     withCache withRateLimit withBreaker fst snd].

Ltac fields :=
  cbn [requestCache rateLimitMap circuitBreaker ticks draws fetches trace fst snd].

(** [processMessage] is its stages in sequence. *)
Lemma processMessage_stages input w :
  processMessage env input w =
  let '((startTime, allowed), w1) := rateGate env input w in
  if negb allowed then (Threw rateLimitError, w1)
  else
    let '(hit, w2) := idempotencyCheck env input w1 in
    match hit with
    | Some cached => (Returned cached, w2)
    | None =>
        let '(closed, w3) := checkCircuitBreaker env aiEndpoint w2 in
        if negb closed then
          let '(fb, w4) := createFallbackResponse env (message input) (conversationId input)
                             "Circuit breaker open" None w3 in
          (Returned fb, w4)
        else
          let '(attempted, w4) := upstreamCall env input w3 in
          match attempted with
          | Returned result => succeed env input startTime result w4
          | Threw error => recover env input startTime error w4
          end
    end.
Proof.
  unfold processMessage, rateGate, idempotencyCheck, upstreamCall, bind, ret.
  destruct (dateNow env w) as [startTime w0].
  destruct (checkRateLimit env (conversationId input) w0) as [[] w1]; cbn [negb]; [|reflexivity].
  destruct (keyGiven (idempotencyKey input)) as [key|].
  - destruct (checkIdempotency env key w1) as [[cached|] w2]; [reflexivity|].
    destruct (checkCircuitBreaker env aiEndpoint w2) as [[] w3]; cbn [negb].
    + destruct (callAIWithRetry env _ _ _ w3) as [[] ?]; reflexivity.
    + destruct (createFallbackResponse env _ _ _ _ w3); reflexivity.
  - destruct (checkCircuitBreaker env aiEndpoint w1) as [[] w3]; cbn [negb].
    + destruct (callAIWithRetry env _ _ _ w3) as [[] ?]; reflexivity.
    + destruct (createFallbackResponse env _ _ _ _ w3); reflexivity.
Qed.

(** *** The retry loop *)

Lemma interpret_error message response e :
  interpret message response = Threw e -> exists reason, e = ErrorObj reason.
Proof.
  unfold interpret; intros H.
  repeat case_match; simplify_eq; eauto.
Qed.

Lemma attemptOnce_result message messages attempt w :
  fst (attemptOnce env message messages attempt w) = interpret message (upstream env (fetches w)).
Proof. reflexivity. Qed.

(** The loop only ever raises an [Error] object once it has run. *)
Lemma retryLoop_throws message messages maxRetries n : forall attempt lastError w e w',
  retryLoop env message messages maxRetries n attempt lastError w = (Threw e, w') ->
  (exists reason, lastError = ErrorObj reason) \/ (0 < n)%nat ->
  exists reason, e = ErrorObj reason.
Proof.
  induction n as [|n IH]; intros attempt lastError w e w' Hrun Hok.
  - simpl in Hrun. injection Hrun as -> ->. destruct Hok as [H|H]; [exact H | lia].
  - simpl in Hrun. unfold bind at 1 in Hrun.
    destruct (attemptOnce env message messages attempt w) as [[result|err] w1] eqn:Hatt.
    + discriminate.
    + assert (Herr : exists reason, err = ErrorObj reason).
      { apply (interpret_error message (upstream env (fetches w))).
        rewrite <- (attemptOnce_result message messages attempt w), Hatt. reflexivity. }
      unfold bind in Hrun.
      destruct (when (attempt <? maxRetries) (backoff env attempt) w1) as [[] w2].
      apply (IH _ _ _ _ _ Hrun). left; exact Herr.
Qed.

Lemma upstreamCall_throws input w e w' :
  upstreamCall env input w = (Threw e, w') -> exists reason, e = ErrorObj reason.
Proof.
  unfold upstreamCall, callAIWithRetry. intros H.
  apply (retryLoop_throws _ _ _ _ _ _ _ _ _ H). right. simpl. lia.
Qed.

(** *** What each exit of [processMessage] returns *)

Lemma createFallbackResponse_fields message cid reason spent w :
  exists r w', createFallbackResponse env message cid reason spent w = (r, w') /\
    success r = true /\ model (metadata r) = "fallback" /\
    error (metadata r) = Some reason /\ cached (metadata r) = false /\
    mapsKept w w' /\ fetches w' = fetches w /\ trace w' = trace w.
Proof.
  eexists _, _; split; [reflexivity|]. repeat split; reflexivity.
Qed.

Lemma recover_fallback input startTime reason w :
  exists r w', recover env input startTime (ErrorObj reason) w = (Returned r, w') /\
    success r = true /\ model (metadata r) = "fallback" /\
    error (metadata r) = Some reason /\ cached (metadata r) = false.
Proof.
  unfold recover, cacheIfKeyed.
  destruct (keyGiven (idempotencyKey input)); eexists _, _; (split; [reflexivity|]);
    repeat split; reflexivity.
Qed.

Lemma succeed_fields input startTime result w :
  exists r w', succeed env input startTime result w = (Returned r, w') /\
    success r = true /\ role (out_message r) = Assistant /\
    content (out_message r)
      = jsOr (ai_completion result)
          (JsString (Fallback.generateFallbackResponse (message input))) /\
    model (metadata r) = strOr (ai_model result) "claude-3-5-sonnet" /\
    cached (metadata r) = false.
Proof.
  unfold_stage.
  destruct (circuitBreaker w !! aiEndpoint); destruct (keyGiven (idempotencyKey input));
    eexists _, _; (split; [reflexivity|]); repeat split; reflexivity.
Qed.

(** Past the rate limiter every path ends in a response. *)
Lemma processMessage_allowed input w startTime w1 :
  rateGate env input w = ((startTime, true), w1) ->
  exists r, fst (processMessage env input w) = Returned r.
Proof.
  intros Hadmit. rewrite processMessage_stages, Hadmit. cbn [negb].
  destruct (idempotencyCheck env input w1) as [[hit|] w2]; [eauto|].
  destruct (checkCircuitBreaker env aiEndpoint w2) as [[] w3]; cbn [negb].
  - destruct (upstreamCall env input w3) as [[result|e] w4] eqn:Hup.
    + destruct (succeed_fields input startTime result w4) as (r & w' & -> & _). eauto.
    + destruct (upstreamCall_throws _ _ _ _ Hup) as [reason ->].
      destruct (recover_fallback input startTime reason w4) as (r & w' & -> & _). eauto.
  - destruct (createFallbackResponse_fields (message input) (conversationId input)
                "Circuit breaker open" None w3) as (r & w' & -> & _). eauto.
Qed.

Lemma processMessage_rejected input w startTime w1 :
  rateGate env input w = ((startTime, false), w1) ->
  processMessage env input w = (Threw rateLimitError, w1).
Proof. intros Hadmit. rewrite processMessage_stages, Hadmit. reflexivity. Qed.

(** When the retries are exhausted the caller gets a fallback that names
    the last error. *)
Lemma processMessage_exhausted input w startTime w1 w2 w3 w4 e :
  rateGate env input w = ((startTime, true), w1) ->
  idempotencyCheck env input w1 = (None, w2) ->
  checkCircuitBreaker env aiEndpoint w2 = (true, w3) ->
  upstreamCall env input w3 = (Threw e, w4) ->
  exists reason r,
    e = ErrorObj reason /\ fst (processMessage env input w) = Returned r /\
    success r = true /\ model (metadata r) = "fallback" /\
    error (metadata r) = Some reason /\ cached (metadata r) = false.
Proof.
  intros Hadmit Hidem Hbrk Hup.
  destruct (upstreamCall_throws _ _ _ _ Hup) as [reason ->].
  rewrite processMessage_stages, Hadmit. cbn [negb]. rewrite Hidem, Hbrk. cbn [negb].
  rewrite Hup.
  destruct (recover_fallback input startTime reason w4) as (r & w' & -> & Hr).
  exists reason, r. split; [reflexivity|]. split; [reflexivity|]. exact Hr.
Qed.

(** C2. An upstream failure never escapes [processMessage] as an
    exception: when the rate-limit check passes the call returns a response
    object; when every upstream attempt has failed that response has
    [success = true], [model = 'fallback'] and the failure reason in
    [metadata.error]; the only thing ever thrown is the rate-limit
    rejection. *)
Theorem upstream_failure_never_escapes input w :
  let '(out, _) := processMessage env input w in
  let '((_, allowed), w1) := rateGate env input w in
  (allowed = true -> exists r, out = Returned r) /\
  (forall e, out = Threw e -> allowed = false /\ e = rateLimitError) /\
  (forall w2 w3 w4 e,
     allowed = true ->
     idempotencyCheck env input w1 = (None, w2) ->
     checkCircuitBreaker env aiEndpoint w2 = (true, w3) ->
     upstreamCall env input w3 = (Threw e, w4) ->
     exists reason r,
       e = ErrorObj reason /\ out = Returned r /\ success r = true /\
       model (metadata r) = "fallback" /\ error (metadata r) = Some reason).
Proof.
  destruct (processMessage env input w) as [out w'] eqn:Hrun.
  destruct (rateGate env input w) as [[startTime allowed] w1] eqn:Hadmit.
  assert (Hout : out = fst (processMessage env input w)) by (rewrite Hrun; reflexivity).
  split; [|split].
  - intros ->. rewrite Hout. eapply processMessage_allowed; eassumption.
  - intros e ->. destruct allowed.
    + destruct (processMessage_allowed _ _ _ _ Hadmit) as [r Hr].
      rewrite Hrun in Hr. discriminate.
    + rewrite (processMessage_rejected _ _ _ _ Hadmit) in Hrun.
      split; [reflexivity | congruence].
  - intros w2 w3 w4 e -> Hidem Hbrk Hup.
    destruct (processMessage_exhausted _ _ _ _ _ _ _ _ Hadmit Hidem Hbrk Hup)
      as (reason & r & -> & Hr & Hs & Hm & He & _).
    exists reason, r. rewrite Hout. auto.
Qed.

(** *** The retry budget *)

Lemma jitter_range (r : Q) :
  (0 <= r)%Q -> (r < 1)%Q -> (0 <= r * 500)%Q /\ (r * 500 < 500)%Q.
Proof. intros H0 H1. split; lra. Qed.

(** Three failing attempts, unfolded: what is fetched, how long the loop
    sleeps, what it raises. *)
Lemma upstreamCall_exhausted input w e1 e2 e3 :
  interpret (message input) (upstream env (fetches w)) = Threw e1 ->
  interpret (message input) (upstream env (S (fetches w))) = Threw e2 ->
  interpret (message input) (upstream env (S (S (fetches w)))) = Threw e3 ->
  let body := requestBody (message input) (default [] (messages input)) in
  let j1 := (random env (S (draws w)) * 500)%Q in
  let j2 := (random env (S (S (S (draws w)))) * 500)%Q in
  exists w',
    upstreamCall env input w = (Threw e3, w') /\
    fetches w' = (3 + fetches w)%nat /\
    mapsKept w w' /\
    trace w' = (trace w ++
      [EvFetch 1 (clock env (ticks w)) (random env (draws w)) body;
       EvSleep (inject_Z (baseDelay 1) + j1);
       EvFetch 2 (clock env (S (ticks w))) (random env (S (S (draws w)))) body;
       EvSleep (inject_Z (baseDelay 2) + j2);
       EvFetch 3 (clock env (S (S (ticks w)))) (random env (S (S (S (S (draws w)))))) body])%list.
Proof.
  intros H1 H2 H3 body j1 j2.
  unfold upstreamCall, callAIWithRetry.
  change (Z.to_nat 3) with 3%nat.
  cbv beta iota zeta delta
    [retryLoop attemptOnce backoff fetch emit dateNow mathRandom when bind ret modify].
  cbn [fetches draws ticks trace requestCache rateLimitMap circuitBreaker].
  rewrite H1. change (1 <? 3) with true. cbv beta iota.
  cbn [fetches draws ticks trace requestCache rateLimitMap circuitBreaker].
  rewrite H2. change (1 + 1 <? 3) with true. cbv beta iota.
  cbn [fetches draws ticks trace requestCache rateLimitMap circuitBreaker].
  rewrite H3. change (1 + 1 + 1 <? 3) with false. cbv beta iota.
  cbn [fetches draws ticks trace requestCache rateLimitMap circuitBreaker].
  eexists; split; [reflexivity|].
  split; [reflexivity|]. split; [repeat split; reflexivity|].
  cbn [trace]. rewrite <- !app_assoc. reflexivity.
Qed.

(** C5. When the upstream fails on every attempt, [callAIWithRetry]
    makes exactly three attempts, sleeps [2^(attempt-1) * 1000] ms plus a
    jitter in [0, 500) between consecutive attempts (floors 1000 ms then
    2000 ms, so the delays strictly increase), and raises the last error,
    which [processMessage] turns into a fallback response. *)
Theorem retry_budget input w e1 e2 e3 :
  interpret (message input) (upstream env (fetches w)) = Threw e1 ->
  interpret (message input) (upstream env (S (fetches w))) = Threw e2 ->
  interpret (message input) (upstream env (S (S (fetches w)))) = Threw e3 ->
  (forall k, (0 <= random env k)%Q /\ (random env k < 1)%Q) ->
  let '(out, w') := callAIWithRetry env (message input) (default [] (messages input)) 3 w in
  out = Threw e3 /\
  fetches w' = (3 + fetches w)%nat /\
  (exists s1 n1 s2 n2 s3 n3 j1 j2 body,
     trace w' = (trace w ++
       [EvFetch 1 s1 n1 body; EvSleep (inject_Z (baseDelay 1) + j1);
        EvFetch 2 s2 n2 body; EvSleep (inject_Z (baseDelay 2) + j2);
        EvFetch 3 s3 n3 body])%list /\
     baseDelay 1 = 1000 /\ baseDelay 2 = 2000 /\
     (0 <= j1)%Q /\ (j1 < 500)%Q /\ (0 <= j2)%Q /\ (j2 < 500)%Q /\
     (inject_Z (baseDelay 1) + j1 < inject_Z (baseDelay 2) + j2)%Q) /\
  (forall w0 startTime w1 w2,
     rateGate env input w0 = ((startTime, true), w1) ->
     idempotencyCheck env input w1 = (None, w2) ->
     checkCircuitBreaker env aiEndpoint w2 = (true, w) ->
     exists reason r,
       e3 = ErrorObj reason /\ fst (processMessage env input w0) = Returned r /\
       success r = true /\ model (metadata r) = "fallback" /\
       error (metadata r) = Some reason).
Proof.
  intros H1 H2 H3 Hrand.
  destruct (upstreamCall_exhausted input w e1 e2 e3 H1 H2 H3) as (w' & Hrun & Hf & _ & Htr).
  unfold upstreamCall in Hrun. rewrite Hrun.
  split; [reflexivity|]. split; [exact Hf|]. split.
  - destruct (Hrand (S (draws w))) as [Ha Hb].
    destruct (Hrand (S (S (S (draws w))))) as [Hc Hd].
    destruct (jitter_range _ Ha Hb) as [Ha' Hb'].
    destruct (jitter_range _ Hc Hd) as [Hc' Hd'].
    do 9 eexists. split; [exact Htr|].
    change (baseDelay 1) with 1000. change (baseDelay 2) with 2000.
    repeat split; try assumption.
    change (inject_Z 1000) with (1000 # 1)%Q. change (inject_Z 2000) with (2000 # 1)%Q.
    lra.
  - intros w0 startTime w1 w2 Hadmit Hidem Hbrk.
    destruct (processMessage_exhausted input w0 startTime w1 w2 w w' e3 Hadmit Hidem Hbrk Hrun)
      as (reason & r & He & Hr & Hs & Hm & Herr & _).
    exists reason, r. auto.
Qed.

(** *** The rate limiter *)

Lemma limitsKept_refl w : limitsKept w w.
Proof. split; [reflexivity | lia]. Qed.

Lemma limitsKept_trans w1 w2 w3 : limitsKept w1 w2 -> limitsKept w2 w3 -> limitsKept w1 w3.
Proof. intros [E1 L1] [E2 L2]; split; [congruence | lia]. Qed.

Lemma limits_ret {A} (a : A) : respects limitsKept (ret a).
Proof. intros w. apply limitsKept_refl. Qed.

Lemma limits_bind {A B} (m : M A) (k : A -> M B) :
  respects limitsKept m -> (forall a, respects limitsKept (k a)) ->
  respects limitsKept (bind m k).
Proof.
  intros Hm Hk w. unfold bind. specialize (Hm w).
  destruct (m w) as [a w1]. eapply limitsKept_trans; [exact Hm | apply Hk].
Qed.

Lemma limits_gets {A} (f : World -> A) : respects limitsKept (gets f).
Proof. intros w. apply limitsKept_refl. Qed.

Lemma limits_dateNow : respects limitsKept (dateNow env).
Proof. intros w. split; cbn; [reflexivity | lia]. Qed.

Lemma limits_mathRandom : respects limitsKept (mathRandom env).
Proof. intros w. split; cbn; [reflexivity | lia]. Qed.

Lemma limits_fetch a st n b : respects limitsKept (fetch env a st n b).
Proof. intros w. split; cbn; [reflexivity | lia]. Qed.

Lemma limits_emit e : respects limitsKept (emit e).
Proof. intros w. split; cbn; [reflexivity | lia]. Qed.

Lemma limits_withCache f : respects limitsKept (modify (withCache f)).
Proof. intros w. split; cbn; [reflexivity | lia]. Qed.

Lemma limits_withBreaker f : respects limitsKept (modify (withBreaker f)).
Proof. intros w. split; cbn; [reflexivity | lia]. Qed.

Ltac limits :=
  repeat first
    [ progress intros
    | apply limits_ret | apply limits_gets | apply limits_dateNow
    | apply limits_mathRandom | apply limits_fetch | apply limits_emit
    | apply limits_withCache | apply limits_withBreaker
    | apply limits_bind
    | solve [auto]
    | progress cbv zeta
    | progress unfold when
    | case_match ].

Lemma limits_checkIdempotency key : respects limitsKept (checkIdempotency env key).
Proof. unfold checkIdempotency. limits. Qed.

Lemma limits_idempotencyCheck input : respects limitsKept (idempotencyCheck env input).
Proof. unfold idempotencyCheck. pose proof limits_checkIdempotency. limits. Qed.

Lemma limits_checkCircuitBreaker ep : respects limitsKept (checkCircuitBreaker env ep).
Proof. unfold checkCircuitBreaker. limits. Qed.

Lemma limits_createFallbackResponse m c r p :
  respects limitsKept (createFallbackResponse env m c r p).
Proof. unfold createFallbackResponse. limits. Qed.

Lemma limits_setIdempotencyCache key r ttl :
  respects limitsKept (setIdempotencyCache env key r ttl).
Proof. unfold setIdempotencyCache. limits. Qed.

Lemma limits_cacheIfKeyed key r ttl : respects limitsKept (cacheIfKeyed env key r ttl).
Proof. unfold cacheIfKeyed. pose proof limits_setIdempotencyCache. limits. Qed.

Lemma limits_recordSuccess ep : respects limitsKept (recordSuccess ep).
Proof. unfold recordSuccess. limits. Qed.

Lemma limits_recordFailure ep : respects limitsKept (recordFailure env ep).
Proof. unfold recordFailure. limits. Qed.

Lemma limits_succeed input st r : respects limitsKept (succeed env input st r).
Proof.
  unfold succeed. pose proof limits_recordSuccess. pose proof limits_cacheIfKeyed. limits.
Qed.

Lemma limits_recover input st e : respects limitsKept (recover env input st e).
Proof.
  unfold recover. pose proof limits_recordFailure. pose proof limits_cacheIfKeyed.
  pose proof limits_createFallbackResponse. limits.
Qed.

Lemma limits_cleanupExpired k : respects limitsKept (cleanupExpired env k).
Proof. unfold cleanupExpired. limits. Qed.

Lemma limits_attemptOnce m ms a : respects limitsKept (attemptOnce env m ms a).
Proof. unfold attemptOnce. limits. Qed.

Lemma limits_backoff a : respects limitsKept (backoff env a).
Proof. unfold backoff. limits. Qed.

Lemma limits_retryLoop m ms mx n : forall a e,
  respects limitsKept (retryLoop env m ms mx n a e).
Proof.
  induction n as [|n IH]; intros a e; cbn [retryLoop].
  - apply limits_ret.
  - pose proof limits_attemptOnce. pose proof limits_backoff. limits.
Qed.

Lemma upstreamCall_limits input : respects limitsKept (upstreamCall env input).
Proof. apply limits_retryLoop. Qed.

(** After [rateGate] nothing touches the rate-limit windows. *)
Lemma processMessage_limits input w :
  limitsKept (snd (rateGate env input w)) (snd (processMessage env input w)).
Proof.
  rewrite processMessage_stages.
  destruct (rateGate env input w) as [[startTime allowed] w1]. cbn [snd].
  destruct allowed; cbn [negb]; [|apply limitsKept_refl].
  pose proof (limits_idempotencyCheck input w1) as H2.
  destruct (idempotencyCheck env input w1) as [[hit|] w2]; cbn [snd] in *; [exact H2|].
  pose proof (limits_checkCircuitBreaker aiEndpoint w2) as H3.
  destruct (checkCircuitBreaker env aiEndpoint w2) as [closed w3]; cbn [snd] in *.
  eapply limitsKept_trans; [exact H2|]. eapply limitsKept_trans; [exact H3|].
  destruct closed; cbn [negb].
  - pose proof (upstreamCall_limits input w3) as H4.
    destruct (upstreamCall env input w3) as [[result|e] w4]; cbn [snd] in *;
      (eapply limitsKept_trans; [exact H4|]).
    + apply limits_succeed.
    + apply limits_recover.
  - pose proof (limits_createFallbackResponse (message input) (conversationId input)
                  "Circuit breaker open" None w3) as H4.
    destruct (createFallbackResponse env _ _ _ _ w3) as [fb w4]. exact H4.
Qed.

(** What [rateGate] does, by the state of the caller's window. *)
Lemma rateGate_run input w :
  exists allowed w1,
    rateGate env input w = ((clock env (ticks w), allowed), w1) /\
    ticks w1 = S (S (ticks w)) /\
    requestCache w1 = requestCache w /\ circuitBreaker w1 = circuitBreaker w /\
    trace w1 = trace w /\ fetches w1 = fetches w /\
    (forall cid', cid' <> conversationId input ->
       rateLimitMap w1 !! cid' = rateLimitMap w !! cid') /\
    match rateLimitMap w !! conversationId input with
    | Some limit =>
        if opensWindow (rateNow env w) (Some limit) then
          allowed = true /\
          rateLimitMap w1 !! conversationId input
            = Some {| count := 1; resetTime := rateNow env w + 60000 |}
        else if count limit >=? 15 then
          allowed = false /\ rateLimitMap w1 = rateLimitMap w
        else
          allowed = true /\
          rateLimitMap w1 !! conversationId input
            = Some {| count := count limit + 1; resetTime := resetTime limit |}
    | None =>
        allowed = true /\
        rateLimitMap w1 !! conversationId input
          = Some {| count := 1; resetTime := rateNow env w + 60000 |}
    end.
Proof.
  unfold rateGate, checkRateLimit, rateNow, opensWindow, bind, ret, gets, modify, dateNow,
    withRateLimit.
  cbn [ticks rateLimitMap].
  destruct (rateLimitMap w !! conversationId input) as [limit|] eqn:Hl.
  - destruct (clock env (S (ticks w)) >? resetTime limit);
      [|destruct (count limit >=? 15)];
      eexists _, _; (split; [reflexivity|]); cbn;
      repeat split; auto; intros; by simplify_map_eq.
  - eexists _, _; (split; [reflexivity|]); cbn;
      repeat split; auto; intros; by simplify_map_eq.
Qed.

Lemma admittedFor_cons cid s steps r results :
  admittedFor cid (s :: steps) (r :: results)
  = (admittedFor cid [s] [r] + admittedFor cid steps results)%nat.
Proof.
  destruct s as [input|key]; destruct r as [[resp|e]|]; cbn [admittedFor]; lia.
Qed.

Lemma run_cons s steps w :
  run env (s :: steps) w =
  let '(r, w1) := step env s w in
  let '(rs, w2) := run env steps w1 in (r :: rs, w2).
Proof.
  cbn [run]. unfold bind, ret.
  destruct (step env s w) as [r w1]. destruct (run env steps w1) as [rs w2]. reflexivity.
Qed.

Lemma run_app steps1 : forall steps2 w,
  run env (steps1 ++ steps2) w =
  let '(rs1, w1) := run env steps1 w in
  let '(rs2, w2) := run env steps2 w1 in ((rs1 ++ rs2)%list, w2).
Proof.
  induction steps1 as [|s steps1 IH]; intros steps2 w.
  - cbn. destruct (run env steps2 w); reflexivity.
  - rewrite <- app_comm_cons, !run_cons.
    destruct (step env s w) as [r w1]. rewrite IH.
    destruct (run env steps1 w1) as [rs1 w2]. destruct (run env steps2 w2). reflexivity.
Qed.

Lemma run_length steps : forall w, length (fst (run env steps w)) = length steps.
Proof.
  induction steps as [|s steps IH]; intros w; [reflexivity|].
  rewrite run_cons. destruct (step env s w) as [r w1].
  specialize (IH w1). destruct (run env steps w1). cbn in *. congruence.
Qed.

(** One request inside a running window of [cid]: the window stays, its
    count grows by one exactly when the request is for [cid] and is
    answered, and at count 15 a request for [cid] is thrown back with
    nothing else touched. *)
Lemma request_in_window cid input w limit :
  rateLimitMap w !! cid = Some limit ->
  (forall k, (ticks w <= k)%nat -> clock env k <= resetTime limit) ->
  count limit <= 15 ->
  exists out w' limit',
    processMessage env input w = (out, w') /\
    rateLimitMap w' !! cid = Some limit' /\
    resetTime limit' = resetTime limit /\ (ticks w <= ticks w')%nat /\
    count limit' <= 15 /\
    count limit' = count limit + Z.of_nat (admittedFor cid [Request input] [Some out]) /\
    (conversationId input = cid -> count limit = 15 ->
       out = Threw rateLimitError /\ requestCache w' = requestCache w /\
       circuitBreaker w' = circuitBreaker w /\ trace w' = trace w /\
       fetches w' = fetches w).
Proof.
  intros Hl Hclock Hcount.
  destruct (rateGate_run input w)
    as (allowed & w1 & Hadmit & Ht & Hc & Hb & Htr & Hf & Hother & Hcase).
  pose proof (processMessage_limits input w) as [Hkeep Hticks].
  rewrite Hadmit in Hkeep, Hticks. cbn [snd] in Hkeep, Hticks.
  destruct (processMessage env input w) as [out w'] eqn:Hrun. cbn [snd] in Hkeep, Hticks.
  destruct (String.eqb (conversationId input) cid) eqn:Hcid.
  - apply String.eqb_eq in Hcid. rewrite Hcid, Hl in Hcase.
    assert (Hin : opensWindow (rateNow env w) (Some limit) = false).
    { unfold opensWindow, rateNow. rewrite Z.gtb_ltb. apply Z.ltb_ge. apply Hclock. lia. }
    rewrite Hin in Hcase.
    destruct (count limit >=? 15) eqn:Hfull.
    + destruct Hcase as [-> Hsame].
      rewrite (processMessage_rejected _ _ _ _ Hadmit) in Hrun.
      injection Hrun as <- <-.
      exists (Threw rateLimitError), w1, limit.
      split; [reflexivity|]. rewrite Hsame, Hl.
      repeat split; auto; try lia. cbn. lia.
    + destruct Hcase as [-> Hnew].
      destruct (processMessage_allowed _ _ _ _ Hadmit) as [r Hr].
      rewrite Hrun in Hr. cbn [fst] in Hr. subst out.
      exists (Returned r), w', {| count := count limit + 1; resetTime := resetTime limit |}.
      split; [reflexivity|]. rewrite Hkeep, Hnew.
      assert (count limit < 15) by (rewrite Z.geb_leb in Hfull; apply Z.leb_gt in Hfull; lia).
      cbn [admittedFor count resetTime]. rewrite Hcid, String.eqb_refl.
      repeat split; auto; try lia.
  - apply String.eqb_neq in Hcid.
    exists out, w', limit.
    split; [reflexivity|]. rewrite Hkeep, Hother, Hl by congruence.
    assert (Hzero : admittedFor cid [Request input] [Some out] = 0%nat).
    { destruct out; cbn [admittedFor]; [|reflexivity].
      apply String.eqb_neq in Hcid. rewrite Hcid. reflexivity. }
    rewrite Hzero. repeat split; auto; try lia. all: intros; congruence.
Qed.

Lemma step_in_window cid s w limit :
  rateLimitMap w !! cid = Some limit ->
  (forall k, (ticks w <= k)%nat -> clock env k <= resetTime limit) ->
  count limit <= 15 ->
  exists r w' limit',
    step env s w = (r, w') /\
    rateLimitMap w' !! cid = Some limit' /\
    resetTime limit' = resetTime limit /\ (ticks w <= ticks w')%nat /\
    count limit' <= 15 /\
    count limit' = count limit + Z.of_nat (admittedFor cid [s] [r]).
Proof.
  intros Hl Hclock Hcount. destruct s as [input|key].
  - destruct (request_in_window cid input w limit Hl Hclock Hcount)
      as (out & w' & limit' & Hrun & Hl' & Hr & Ht & Hc & Hn & _).
    exists (Some out), w', limit'. cbn [step]. unfold bind, ret. rewrite Hrun.
    repeat split; assumption.
  - pose proof (limits_cleanupExpired key w) as [Hkeep Ht].
    cbn [step]. unfold bind, ret.
    destruct (cleanupExpired env key w) as [[] w']. cbn [snd] in *.
    exists None, w', limit. split; [reflexivity|]. rewrite Hkeep, Hl.
    cbn [admittedFor]. repeat split; auto; lia.
Qed.

Lemma run_in_window cid steps : forall w limit,
  rateLimitMap w !! cid = Some limit ->
  (forall k, (ticks w <= k)%nat -> clock env k <= resetTime limit) ->
  count limit <= 15 ->
  exists rs w' limit',
    run env steps w = (rs, w') /\
    rateLimitMap w' !! cid = Some limit' /\
    resetTime limit' = resetTime limit /\ (ticks w <= ticks w')%nat /\
    count limit' <= 15 /\
    count limit' = count limit + Z.of_nat (admittedFor cid steps rs).
Proof.
  induction steps as [|s steps IH]; intros w limit Hl Hclock Hcount.
  - exists [], w, limit. cbn. repeat split; auto; lia.
  - destruct (step_in_window cid s w limit Hl Hclock Hcount)
      as (r & w1 & limit1 & Hstep & Hl1 & Hr1 & Ht1 & Hc1 & Hn1).
    destruct (IH w1 limit1 Hl1) as (rs & w2 & limit2 & Hrun & Hl2 & Hr2 & Ht2 & Hc2 & Hn2).
    { intros k Hk. rewrite Hr1. apply Hclock. lia. }
    { exact Hc1. }
    exists (r :: rs), w2, limit2. rewrite run_cons, Hstep, Hrun.
    split; [reflexivity|]. rewrite admittedFor_cons.
    repeat split; auto; try lia; congruence.
Qed.

(** The request that opens a window. *)
Lemma window_opener first w :
  opensWindow (rateNow env w) (rateLimitMap w !! conversationId first) = true ->
  exists r w1,
    processMessage env first w = (Returned r, w1) /\
    rateLimitMap w1 !! conversationId first
      = Some {| count := 1; resetTime := rateNow env w + 60000 |} /\
    (S (ticks w) < ticks w1)%nat.
Proof.
  intros Hopen.
  destruct (rateGate_run first w) as (allowed & wa & Hadmit & Ht & _ & _ & _ & _ & _ & Hcase).
  assert (Hnew : allowed = true /\
                 rateLimitMap wa !! conversationId first
                 = Some {| count := 1; resetTime := rateNow env w + 60000 |}).
  { destruct (rateLimitMap w !! conversationId first) as [limit|]; [|exact Hcase].
    rewrite Hopen in Hcase. exact Hcase. }
  destruct Hnew as [-> Hnew].
  pose proof (processMessage_limits first w) as [Hkeep Hticks].
  rewrite Hadmit in Hkeep, Hticks. cbn [snd] in Hkeep, Hticks.
  destruct (processMessage_allowed _ _ _ _ Hadmit) as [r Hr].
  destruct (processMessage env first w) as [out w1]. cbn [fst snd] in *. subst out.
  exists r, w1. split; [reflexivity|]. rewrite Hkeep. split; [exact Hnew | lia].
Qed.

(** C1. Within one window of a conversation (opened by a request that
    sets [count = 1] and [resetTime = now + 60000], and lasting while
    [Date.now()] does not exceed [resetTime]) at most 15 requests are
    answered; every further request of that conversation is thrown the
    rate-limit error, before any idempotency lookup, circuit-breaker check
    or upstream call: the cache, the breakers and the trace are untouched. *)
Theorem rate_limit_window first rest w :
  opensWindow (rateNow env w) (rateLimitMap w !! conversationId first) = true ->
  (forall k, (S (ticks w) < k)%nat -> clock env k <= rateNow env w + 60000) ->
  (exists r w1,
     processMessage env first w = (Returned r, w1) /\
     rateLimitMap w1 !! conversationId first
       = Some {| count := 1; resetTime := rateNow env w + 60000 |}) /\
  (admittedFor (conversationId first) (Request first :: rest)
     (fst (run env (Request first :: rest) w)) <= 15)%nat /\
  (forall before input after,
     rest = (before ++ Request input :: after)%list ->
     conversationId input = conversationId first ->
     let '(results, w2) := run env (Request first :: before) w in
     (15 <= admittedFor (conversationId first) (Request first :: before) results)%nat ->
     let '(out, w3) := processMessage env input w2 in
     out = Threw rateLimitError /\
     requestCache w3 = requestCache w2 /\ circuitBreaker w3 = circuitBreaker w2 /\
     trace w3 = trace w2 /\ fetches w3 = fetches w2).
Proof.
  intros Hopen Hclock.
  destruct (window_opener first w Hopen) as (r & w1 & Hfirst & Hl1 & Ht1).
  assert (Hin : forall k, (ticks w1 <= k)%nat ->
                  clock env k <= resetTime {| count := 1; resetTime := rateNow env w + 60000 |}).
  { intros k Hk. cbn [resetTime]. apply Hclock. lia. }
  assert (Hone : forall steps rs,
            admittedFor (conversationId first) (Request first :: steps)
              (Some (Returned r) :: rs)
            = S (admittedFor (conversationId first) steps rs)).
  { intros steps rs. cbn [admittedFor]. rewrite String.eqb_refl. reflexivity. }
  split; [eauto|]. split.
  - destruct (run_in_window (conversationId first) rest w1 _ Hl1 Hin)
      as (rs & w2 & limit2 & Hrun & _ & _ & _ & Hc2 & Hn2); [cbn; lia|].
    rewrite run_cons. cbn [step]. unfold bind, ret. rewrite Hfirst, Hrun. cbn [fst].
    rewrite Hone. cbn [count] in Hn2. lia.
  - intros before input after -> Hcid.
    destruct (run_in_window (conversationId first) before w1 _ Hl1 Hin)
      as (rs & w2 & limit2 & Hrun & Hl2 & Hr2 & Ht2 & Hc2 & Hn2); [cbn; lia|].
    rewrite run_cons. cbn [step]. unfold bind, ret. rewrite Hfirst, Hrun.
    rewrite Hone. intros Hfull. cbn [count] in Hn2.
    destruct (request_in_window (conversationId first) input w2 limit2 Hl2)
      as (out & w3 & limit3 & Hreq & _ & _ & _ & _ & _ & Hthrown); [|exact Hc2|].
    { intros k Hk. rewrite Hr2. apply Hin. lia. }
    rewrite Hreq. apply Hthrown; [exact Hcid | lia].
Qed.

(** *** The cached flag *)

Lemma clean_same w w' : requestCache w' = requestCache w -> cacheClean w -> cacheClean w'.
Proof. unfold cacheClean. intros ->. auto. Qed.

Lemma clean_ret {A} (a : A) : preserves cacheClean (ret a).
Proof. intros w H. exact H. Qed.

Lemma clean_bind {A B} (m : M A) (k : A -> M B) :
  preserves cacheClean m -> (forall a, preserves cacheClean (k a)) ->
  preserves cacheClean (bind m k).
Proof.
  intros Hm Hk w H. unfold bind. specialize (Hm w H).
  destruct (m w) as [a w1]. apply Hk, Hm.
Qed.

Lemma clean_gets {A} (f : World -> A) : preserves cacheClean (gets f).
Proof. intros w H. exact H. Qed.

Lemma clean_dateNow : preserves cacheClean (dateNow env).
Proof. intros w. apply clean_same. reflexivity. Qed.

Lemma clean_mathRandom : preserves cacheClean (mathRandom env).
Proof. intros w. apply clean_same. reflexivity. Qed.

Lemma clean_fetch a st n b : preserves cacheClean (fetch env a st n b).
Proof. intros w. apply clean_same. reflexivity. Qed.

Lemma clean_emit e : preserves cacheClean (emit e).
Proof. intros w. apply clean_same. reflexivity. Qed.

Lemma clean_withRateLimit f : preserves cacheClean (modify (withRateLimit f)).
Proof. intros w. apply clean_same. reflexivity. Qed.

Lemma clean_withBreaker f : preserves cacheClean (modify (withBreaker f)).
Proof. intros w. apply clean_same. reflexivity. Qed.

Lemma clean_delete key : preserves cacheClean (modify (withCache (delete key))).
Proof.
  intros w H k entry. cbn. intros Hk. apply lookup_delete_Some in Hk as [_ Hk].
  exact (H k entry Hk).
Qed.

Lemma clean_insert key r expires :
  cached (metadata r) = false ->
  preserves cacheClean
    (modify (withCache <[key := {| data := r; expiresAt := expires |}]>)).
Proof.
  intros Hr w H k entry. cbn. intros Hk.
  apply lookup_insert_Some in Hk as [[_ <-]|[_ Hk]]; [exact Hr | exact (H k entry Hk)].
Qed.

Ltac clean :=
  repeat first
    [ progress intros
    | apply clean_ret | apply clean_gets | apply clean_dateNow
    | apply clean_mathRandom | apply clean_fetch | apply clean_emit
    | apply clean_withRateLimit | apply clean_withBreaker | apply clean_delete
    | apply clean_insert; solve [auto]
    | apply clean_bind
    | solve [auto]
    | progress cbv zeta
    | progress unfold when
    | case_match ].

Lemma clean_checkRateLimit cid : preserves cacheClean (checkRateLimit env cid).
Proof. unfold checkRateLimit. clean. Qed.

Lemma clean_checkIdempotency key : preserves cacheClean (checkIdempotency env key).
Proof. unfold checkIdempotency. clean. Qed.

Lemma clean_checkCircuitBreaker ep : preserves cacheClean (checkCircuitBreaker env ep).
Proof. unfold checkCircuitBreaker. clean. Qed.

Lemma clean_recordSuccess ep : preserves cacheClean (recordSuccess ep).
Proof. unfold recordSuccess. clean. Qed.

Lemma clean_recordFailure ep : preserves cacheClean (recordFailure env ep).
Proof. unfold recordFailure. clean. Qed.

Lemma clean_cleanupExpired key : preserves cacheClean (cleanupExpired env key).
Proof. unfold cleanupExpired. clean. Qed.

Lemma clean_cacheIfKeyed key r ttl :
  cached (metadata r) = false -> preserves cacheClean (cacheIfKeyed env key r ttl).
Proof. intros Hr. unfold cacheIfKeyed, setIdempotencyCache. clean. Qed.

Lemma clean_attemptOnce m ms a : preserves cacheClean (attemptOnce env m ms a).
Proof. unfold attemptOnce. clean. Qed.

Lemma clean_backoff a : preserves cacheClean (backoff env a).
Proof. unfold backoff. clean. Qed.

Lemma clean_retryLoop m ms mx n : forall a e,
  preserves cacheClean (retryLoop env m ms mx n a e).
Proof.
  induction n as [|n IH]; intros a e; cbn [retryLoop].
  - apply clean_ret.
  - pose proof clean_attemptOnce. pose proof clean_backoff. clean.
Qed.

Lemma clean_succeed input st result : preserves cacheClean (succeed env input st result).
Proof.
  unfold succeed. pose proof clean_recordSuccess. clean.
  apply clean_cacheIfKeyed. reflexivity.
Qed.

Lemma clean_bind_post {A B} (P : A -> Prop) (m : M A) (k : A -> M B) :
  (forall w, cacheClean w -> cacheClean (snd (m w)) /\ P (fst (m w))) ->
  (forall a, P a -> preserves cacheClean (k a)) ->
  preserves cacheClean (bind m k).
Proof.
  intros Hm Hk w H. unfold bind. destruct (Hm w H) as [H1 H2].
  destruct (m w) as [a w1]. apply (Hk a H2), H1.
Qed.

Lemma clean_recover input st e : preserves cacheClean (recover env input st e).
Proof.
  unfold recover. cbv zeta.
  apply clean_bind; [apply clean_recordFailure | intros _].
  destruct e as [reason|]; [|apply clean_ret].
  apply clean_bind; [apply clean_dateNow | intros failed].
  apply (clean_bind_post (fun r => cached (metadata r) = false)).
  - intros w Hw. split; [|reflexivity].
    unfold createFallbackResponse, bind, ret. cbn. apply (clean_dateNow w Hw).
  - intros r Hr. apply clean_bind; [apply clean_cacheIfKeyed; exact Hr | intros _].
    apply clean_ret.
Qed.

(** The response served from the cache is the stored one. *)
Lemma checkIdempotency_hit key w r w' :
  checkIdempotency env key w = (Some r, w') ->
  exists entry, requestCache w !! key = Some entry /\ data entry = r.
Proof.
  unfold_stage. fields.
  destruct (requestCache w !! key) as [entry|]; [|discriminate].
  cbv beta. fields.
  destruct (expiresAt entry >? clock env (ticks w)); [|discriminate].
  intros [= <- _]. eauto.
Qed.

(** With a clean cache, [processMessage] leaves it clean and returns only
    responses with [cached = false]. *)
Lemma processMessage_clean input w :
  cacheClean w ->
  cacheClean (snd (processMessage env input w)) /\
  forall r, fst (processMessage env input w) = Returned r -> cached (metadata r) = false.
Proof.
  intros Hw. rewrite processMessage_stages.
  assert (H1 : cacheClean (snd (rateGate env input w))).
  { unfold rateGate. revert w Hw. pose proof clean_checkRateLimit.
    change (preserves cacheClean
              (let! startTime := dateNow env in
               let! allowed := checkRateLimit env (conversationId input) in
               ret (startTime, allowed))). clean. }
  destruct (rateGate env input w) as [[startTime allowed] w1]. cbn [snd] in H1.
  destruct allowed; cbn [negb]; [|split; [exact H1 | discriminate]].
  assert (H2 : cacheClean (snd (idempotencyCheck env input w1))).
  { unfold idempotencyCheck. destruct (keyGiven (idempotencyKey input));
      [apply clean_checkIdempotency | ]; exact H1. }
  destruct (idempotencyCheck env input w1) as [[hit|] w2] eqn:Hidem; cbn [snd] in H2.
  - split; [exact H2|]. intros r [= <-].
    unfold idempotencyCheck in Hidem.
    destruct (keyGiven (idempotencyKey input)) as [key|]; [|discriminate].
    destruct (checkIdempotency_hit _ _ _ _ Hidem) as (entry & Hentry & <-).
    exact (H1 key entry Hentry).
  - assert (H3 := clean_checkCircuitBreaker aiEndpoint w2 H2).
    destruct (checkCircuitBreaker env aiEndpoint w2) as [closed w3]. cbn [snd] in H3.
    destruct closed; cbn [negb].
    + assert (H4 : cacheClean (snd (upstreamCall env input w3)))
        by (apply clean_retryLoop; exact H3).
      destruct (upstreamCall env input w3) as [[result|e] w4]; cbn [snd] in H4.
      * split; [apply clean_succeed; exact H4|].
        destruct (succeed_fields input startTime result w4) as (r & w' & -> & Hr).
        intros r' [= <-]. apply Hr.
      * split; [apply clean_recover; exact H4|].
        destruct e as [reason|].
        -- destruct (recover_fallback input startTime reason w4) as (r & w' & -> & Hr).
           intros r' [= <-]. apply Hr.
        -- unfold recover, bind, ret. destruct (recordFailure env aiEndpoint w4).
           discriminate.
    + destruct (createFallbackResponse_fields (message input) (conversationId input)
                  "Circuit breaker open" None w3)
        as (r & w' & -> & _ & _ & _ & Hr & (Hc & _) & _).
      split; [exact (clean_same _ _ Hc H3)|]. intros r' [= <-]. exact Hr.
Qed.

Lemma run_clean steps : forall w,
  cacheClean w ->
  forall r, In (Some (Returned r)) (fst (run env steps w)) -> cached (metadata r) = false.
Proof.
  induction steps as [|s steps IH]; intros w Hw r; [intros []|].
  rewrite run_cons. destruct s as [input|key]; cbn [step]; unfold bind, ret.
  - destruct (processMessage_clean input w Hw) as [Hw1 Hout].
    destruct (processMessage env input w) as [out w1]. cbn [fst snd] in *.
    specialize (IH w1 Hw1 r). destruct (run env steps w1) as [rs w2]. cbn [fst] in *.
    intros [Hhead|Htail]; [|exact (IH Htail)].
    injection Hhead as ->. apply Hout. reflexivity.
  - pose proof (clean_cleanupExpired key w Hw) as Hw1.
    destruct (cleanupExpired env key w) as [[] w1]. cbn [snd] in Hw1.
    specialize (IH w1 Hw1 r). destruct (run env steps w1) as [rs w2]. cbn [fst] in *.
    intros [Hhead|Htail]; [discriminate | exact (IH Htail)].
Qed.

(** C9. Every response [processMessage] returns, fresh, fallback or
    replayed from the idempotency cache, carries [metadata.cached = false]:
    from the start of the service on, no returned response is marked
    cached. *)
Theorem cached_flag_never_set steps r :
  In (Some (Returned r)) (fst (run env steps initial)) -> cached (metadata r) = false.
Proof.
  apply run_clean. intros key entry H. cbn in H. rewrite lookup_empty in H. discriminate.
Qed.

(** *** Frames of the stages *)

Lemma retryLoop_respects (R : World -> World -> Prop) :
  (forall w, R w w) -> (forall w1 w2 w3, R w1 w2 -> R w2 w3 -> R w1 w3) ->
  (forall m ms a, respects R (attemptOnce env m ms a)) ->
  (forall a, respects R (backoff env a)) ->
  forall m ms mx n a e, respects R (retryLoop env m ms mx n a e).
Proof.
  intros Hrefl Htrans Hatt Hback m ms mx n.
  induction n as [|n IH]; intros a e w; cbn [retryLoop]; [apply Hrefl|].
  unfold bind at 1. pose proof (Hatt m ms a w) as H1.
  destruct (attemptOnce env m ms a w) as [[r|err] w1]; cbn [snd] in *; [exact H1|].
  unfold bind, when. destruct (a <? mx).
  - pose proof (Hback a w1) as H2. destruct (backoff env a w1) as [[] w2]. cbn [snd] in H2.
    eapply Htrans; [exact H1|]. eapply Htrans; [exact H2 | apply IH].
  - cbn [ret]. eapply Htrans; [exact H1 | apply IH].
Qed.

Lemma upstreamCall_maps input w : mapsKept w (snd (upstreamCall env input w)).
Proof.
  apply (retryLoop_respects mapsKept).
  - intros ?; repeat split.
  - intros w1 w2 w3 (A1 & B1 & C1) (A2 & B2 & C2). repeat split; congruence.
  - intros m ms a w'. repeat split.
  - intros a w'. repeat split.
Qed.

Lemma retryLoop_S m ms mx n a e :
  retryLoop env m ms mx (S n) a e =
  (let! r := attemptOnce env m ms a in
   match r with
   | Returned result => ret (Returned result)
   | Threw error =>
       do! when (a <? mx) (backoff env a) in
       retryLoop env m ms mx n (a + 1) error
   end).
Proof. reflexivity. Qed.

Lemma retryLoop_fetches m ms mx n a e w :
  (fetches w <= fetches (snd (retryLoop env m ms mx n a e w)))%nat.
Proof.
  apply (retryLoop_respects (fun w1 w2 => (fetches w1 <= fetches w2)%nat)).
  - intros; lia.
  - intros; lia.
  - intros ? ? ? w'. cbn. lia.
  - intros ? w'. cbn. lia.
Qed.

(** The upstream call fetches at least once. *)
Lemma upstreamCall_fetches input w :
  (fetches w < fetches (snd (upstreamCall env input w)))%nat.
Proof.
  unfold upstreamCall, callAIWithRetry. change (Z.to_nat 3) with 3%nat.
  rewrite retryLoop_S. unfold bind at 1.
  destruct (attemptOnce env (message input) (default [] (messages input)) 1 w)
    as [[r|err] w1] eqn:Hatt;
    apply (f_equal snd) in Hatt; cbn [snd] in Hatt;
    assert (Hf : fetches w1 = S (fetches w)) by (subst w1; reflexivity).
  - cbn. lia.
  - unfold bind. destruct (when (1 <? 3) (backoff env 1) w1) as [[] w2] eqn:Hb.
    assert (Hf2 : fetches w2 = fetches w1).
    { apply (f_equal snd) in Hb. cbn in Hb. subst w2. reflexivity. }
    pose proof (retryLoop_fetches (message input) (default [] (messages input)) 3 2
                  (1 + 1) err w2).
    lia.
Qed.

Lemma checkIdempotency_live key w entry :
  requestCache w !! key = Some entry ->
  clock env (ticks w) < expiresAt entry ->
  exists w',
    checkIdempotency env key w = (Some (data entry), w') /\
    mapsKept w w' /\ fetches w' = fetches w /\
    trace w' = (trace w ++ [EvCheckIdempotency key])%list.
Proof.
  intros Hentry Hlive. unfold_stage. fields. rewrite Hentry. cbv beta. fields.
  replace (expiresAt entry >? clock env (ticks w)) with true
    by (symmetry; rewrite Z.gtb_ltb; apply Z.ltb_lt; exact Hlive).
  eexists; split; [reflexivity|]. repeat split.
Qed.

Lemma checkIdempotency_expired key w entry :
  requestCache w !! key = Some entry ->
  expiresAt entry <= clock env (ticks w) ->
  exists w',
    checkIdempotency env key w = (None, w') /\
    requestCache w' = delete key (requestCache w) /\
    rateLimitMap w' = rateLimitMap w /\ circuitBreaker w' = circuitBreaker w /\
    fetches w' = fetches w /\
    trace w' = (trace w ++ [EvCheckIdempotency key])%list.
Proof.
  intros Hentry Hdead. unfold_stage. fields. rewrite Hentry. cbv beta. fields.
  replace (expiresAt entry >? clock env (ticks w)) with false
    by (symmetry; rewrite Z.gtb_ltb; apply Z.ltb_ge; exact Hdead).
  eexists; split; [reflexivity|]. repeat split.
Qed.

Lemma idempotencyCheck_frame input w :
  let w' := snd (idempotencyCheck env input w) in
  rateLimitMap w' = rateLimitMap w /\ circuitBreaker w' = circuitBreaker w /\
  fetches w' = fetches w.
Proof.
  unfold idempotencyCheck. destruct (keyGiven (idempotencyKey input)) as [key|];
    [|repeat split].
  unfold_stage. fields. destruct (requestCache w !! key) as [entry|]; [|repeat split].
  cbv beta. fields. destruct (expiresAt entry >? clock env (ticks w)); repeat split.
Qed.

Lemma checkCircuitBreaker_run endpoint w :
  exists closed w',
    checkCircuitBreaker env endpoint w = (closed, w') /\
    requestCache w' = requestCache w /\ rateLimitMap w' = rateLimitMap w /\
    fetches w' = fetches w /\
    trace w' = (trace w ++ [EvCheckCircuitBreaker endpoint])%list /\
    (forall other, other <> endpoint ->
       circuitBreaker w' !! other = circuitBreaker w !! other) /\
    match circuitBreaker w !! endpoint with
    | None => closed = true /\ circuitBreaker w' !! endpoint = Some freshBreaker
    | Some breaker =>
        if (isOpen breaker && (clock env (ticks w) - lastFailure breaker >? 30000))%bool
        then closed = true /\
             circuitBreaker w' !! endpoint
             = Some {| failures := 0; lastFailure := lastFailure breaker; isOpen := false |}
        else closed = negb (isOpen breaker) /\
             circuitBreaker w' !! endpoint = Some breaker
    end.
Proof.
  unfold_stage. fields.
  destruct (circuitBreaker w !! endpoint) as [breaker|] eqn:Hb; cbv beta; fields.
  - destruct (isOpen breaker && (clock env (ticks w) - lastFailure breaker >? 30000))%bool;
      eexists _, _; (split; [reflexivity|]); fields;
      repeat split; intros; by simplify_map_eq.
  - eexists _, _; (split; [reflexivity|]); fields;
      repeat split; intros; by simplify_map_eq.
Qed.

Lemma succeed_run input startTime result w :
  exists r w',
    succeed env input startTime result w = (Returned r, w') /\
    fetches w' = fetches w /\
    (forall breaker, circuitBreaker w !! aiEndpoint = Some breaker ->
       circuitBreaker w' !! aiEndpoint
       = Some {| failures := 0; lastFailure := lastFailure breaker; isOpen := false |}) /\
    match keyGiven (idempotencyKey input) with
    | Some key =>
        requestCache w' !! key
        = Some {| data := r; expiresAt := clock env (S (S (ticks w))) + dayMs |}
    | None => requestCache w' = requestCache w
    end.
Proof.
  unfold_stage. fields.
  destruct (circuitBreaker w !! aiEndpoint) as [breaker|] eqn:Hb;
    destruct (keyGiven (idempotencyKey input)) as [key|];
    eexists _, _; (split; [reflexivity|]); fields;
    repeat split; intros; by simplify_map_eq.
Qed.

Lemma recover_frame input startTime e w :
  fetches (snd (recover env input startTime e w)) = fetches w.
Proof.
  unfold_stage. fields.
  destruct e; destruct (keyGiven (idempotencyKey input)); reflexivity.
Qed.

(** *** Idempotent replay *)

(** C3, as the code has it. A call that passes the rate limit and
    carries a non-empty idempotency key: with a live entry
    ([expiresAt > Date.now()]) the stored response is returned verbatim,
    with no circuit-breaker check and no upstream call, and a second such
    call returns the same response; with an expired entry the entry is
    evicted and the call goes on to the circuit breaker, where a closed
    breaker means a fresh upstream attempt and an open one a fallback. *)
Theorem idempotent_replay input w key entry startTime w1 :
  keyGiven (idempotencyKey input) = Some key ->
  rateGate env input w = ((startTime, true), w1) ->
  requestCache w !! key = Some entry ->
  (clock env (ticks w1) < expiresAt entry ->
     exists w',
       processMessage env input w = (Returned (data entry), w') /\
       trace w' = (trace w ++ [EvCheckIdempotency key])%list /\
       fetches w' = fetches w /\ circuitBreaker w' = circuitBreaker w /\
       requestCache w' = requestCache w /\
       forall input2 startTime2 w2,
         keyGiven (idempotencyKey input2) = Some key ->
         rateGate env input2 w' = ((startTime2, true), w2) ->
         clock env (ticks w2) < expiresAt entry ->
         fst (processMessage env input2 w') = Returned (data entry)) /\
  (expiresAt entry <= clock env (ticks w1) ->
     exists w2,
       idempotencyCheck env input w1 = (None, w2) /\
       requestCache w2 !! key = None /\
       let '(closed, _) := checkCircuitBreaker env aiEndpoint w2 in
       let '(out, w') := processMessage env input w in
       if closed then (fetches w < fetches w')%nat
       else fetches w' = fetches w /\
            exists r, out = Returned r /\ model (metadata r) = "fallback").
Proof.
  intros Hkey Hadmit Hentry.
  destruct (rateGate_run input w) as (allowed & w1' & Hadmit' & _ & Hc1 & Hb1 & Htr1 & Hf1 & _).
  rewrite Hadmit in Hadmit'. injection Hadmit' as _ _ <-.
  assert (Hreplay : forall inp st wa wb,
            keyGiven (idempotencyKey inp) = Some key ->
            rateGate env inp wa = ((st, true), wb) ->
            requestCache wb !! key = Some entry ->
            clock env (ticks wb) < expiresAt entry ->
            exists w', processMessage env inp wa = (Returned (data entry), w') /\
                       mapsKept wb w' /\ fetches w' = fetches wb /\
                       trace w' = (trace wb ++ [EvCheckIdempotency key])%list).
  { intros inp st wa wb Hk Ha He Hlive.
    destruct (checkIdempotency_live key wb entry He Hlive) as (w' & Hrun & Hkept).
    exists w'. rewrite processMessage_stages, Ha. cbn [negb]. unfold idempotencyCheck.
    rewrite Hk, Hrun. split; [reflexivity | exact Hkept]. }
  split.
  - intros Hlive.
    destruct (Hreplay input startTime w w1 Hkey Hadmit) as (w' & Hrun & (Hc & _ & Hb) & Hf & Htr);
      [congruence | exact Hlive |].
    exists w'. split; [exact Hrun|].
    split; [congruence|]. split; [congruence|]. split; [congruence|]. split; [congruence|].
    intros input2 startTime2 w2 Hkey2 Hadmit2 Hlive2.
    destruct (rateGate_run input2 w') as (? & ? & Hadmit2' & _ & Hc2 & _).
    rewrite Hadmit2 in Hadmit2'. injection Hadmit2' as _ _ <-.
    destruct (Hreplay input2 startTime2 w' w2 Hkey2 Hadmit2) as (w'' & -> & _);
      [congruence | exact Hlive2 | reflexivity].
  - intros Hdead.
    destruct (checkIdempotency_expired key w1 entry) as (w2 & Hrun & Hc2 & _ & _ & Hf2 & _);
      [congruence | exact Hdead |].
    exists w2. unfold idempotencyCheck at 1. rewrite Hkey. split; [exact Hrun|].
    split; [rewrite Hc2; apply lookup_delete_eq|].
    assert (Hidem : idempotencyCheck env input w1 = (None, w2))
      by (unfold idempotencyCheck; rewrite Hkey; exact Hrun).
    destruct (checkCircuitBreaker_run aiEndpoint w2) as (closed & w3 & Hbrk & _ & _ & Hf3 & _).
    rewrite Hbrk, processMessage_stages, Hadmit. cbn [negb]. rewrite Hidem, Hbrk.
    destruct closed; cbn [negb].
    + pose proof (upstreamCall_fetches input w3) as Hup.
      destruct (upstreamCall env input w3) as [[result|e] w4]; cbn [snd] in Hup.
      * destruct (succeed_run input startTime result w4) as (r & w' & -> & Hf4 & _). lia.
      * pose proof (recover_frame input startTime e w4) as Hf4.
        destruct (recover env input startTime e w4) as [out w']. cbn [snd] in Hf4. lia.
    + destruct (createFallbackResponse_fields (message input) (conversationId input)
                  "Circuit breaker open" None w3)
        as (r & w' & -> & _ & Hm & _ & _ & _ & Hf4 & _).
      split; [lia | eauto].
Qed.

(** *** The circuit breaker *)

Lemma sound_same w w' : circuitBreaker w' = circuitBreaker w -> breakerSound w -> breakerSound w'.
Proof. unfold breakerSound. intros ->. auto. Qed.

Lemma sound_insert endpoint breaker w :
  (isOpen breaker = true -> 3 <= failures breaker) ->
  breakerSound w -> breakerSound (withBreaker <[endpoint := breaker]> w).
Proof.
  intros Hb Hw ep b. cbn. intros Hl.
  apply lookup_insert_Some in Hl as [[_ <-]|[_ Hl]]; [exact Hb | exact (Hw ep b Hl)].
Qed.

Lemma sound_checkCircuitBreaker endpoint : preserves breakerSound (checkCircuitBreaker env endpoint).
Proof.
  intros w Hw. unfold_stage. fields.
  destruct (circuitBreaker w !! endpoint) as [breaker|] eqn:Hb; cbv beta; fields.
  - apply (sound_insert endpoint); [|apply (sound_same w); [reflexivity | exact Hw]].
    destruct (isOpen breaker && _)%bool; cbn; [discriminate | exact (Hw _ _ Hb)].
  - apply (sound_insert endpoint); [discriminate|].
    apply (sound_same w); [reflexivity | exact Hw].
Qed.

Lemma sound_recordFailure endpoint : preserves breakerSound (recordFailure env endpoint).
Proof.
  intros w Hw. unfold_stage. fields.
  apply (sound_insert endpoint); [|apply (sound_same w); [reflexivity | exact Hw]].
  cbn [isOpen failures].
  destruct (circuitBreaker w !! endpoint) as [breaker|] eqn:Hb; cbn [default]; unfold id.
  - destruct (failures breaker + 1 >=? 3) eqn:Hge.
    + intros _. rewrite Z.geb_leb in Hge. apply Z.leb_le in Hge. exact Hge.
    + intros Hopen. pose proof (Hw _ _ Hb Hopen). lia.
  - cbn. discriminate.
Qed.

Lemma sound_recordSuccess endpoint : preserves breakerSound (recordSuccess endpoint).
Proof.
  intros w Hw. unfold_stage. fields.
  destruct (circuitBreaker w !! endpoint) as [breaker|]; [|exact Hw].
  apply (sound_insert endpoint); [discriminate | exact Hw].
Qed.

Lemma succeed_breaker input startTime result w :
  circuitBreaker (snd (succeed env input startTime result w))
  = circuitBreaker (snd (recordSuccess aiEndpoint w)).
Proof.
  unfold_stage. fields.
  destruct (circuitBreaker w !! aiEndpoint); destruct (keyGiven (idempotencyKey input));
    reflexivity.
Qed.

Lemma recover_breaker input startTime e w :
  circuitBreaker (snd (recover env input startTime e w))
  = circuitBreaker (snd (recordFailure env aiEndpoint w)).
Proof.
  unfold_stage. fields.
  destruct e; destruct (keyGiven (idempotencyKey input)); reflexivity.
Qed.

Lemma sound_processMessage input : preserves breakerSound (processMessage env input).
Proof.
  intros w Hw. rewrite processMessage_stages.
  destruct (rateGate_run input w) as (allowed & w1 & -> & _ & _ & Hb1 & _).
  assert (H1 := sound_same w w1 Hb1 Hw).
  destruct allowed; cbn [negb snd]; [|exact H1].
  destruct (idempotencyCheck_frame input w1) as (_ & Hb2 & _).
  destruct (idempotencyCheck env input w1) as [[hit|] w2]; cbn [snd] in *;
    assert (H2 := sound_same w1 w2 Hb2 H1); [exact H2|].
  assert (H3 := sound_checkCircuitBreaker aiEndpoint w2 H2).
  destruct (checkCircuitBreaker env aiEndpoint w2) as [closed w3]. cbn [snd] in H3.
  destruct closed; cbn [negb].
  - destruct (upstreamCall_maps input w3) as (_ & _ & Hb4).
    destruct (upstreamCall env input w3) as [[result|e] w4]; cbn [snd] in Hb4;
      assert (H4 := sound_same w3 w4 Hb4 H3).
    + apply (sound_same (snd (recordSuccess aiEndpoint w4))); [apply succeed_breaker|].
      apply sound_recordSuccess, H4.
    + apply (sound_same (snd (recordFailure env aiEndpoint w4))); [apply recover_breaker|].
      apply sound_recordFailure, H4.
  - destruct (createFallbackResponse_fields (message input) (conversationId input)
                "Circuit breaker open" None w3) as (r & w' & -> & _ & _ & _ & _ & (_ & _ & Hb) & _).
    exact (sound_same w3 w' Hb H3).
Qed.

Lemma sound_run steps : forall w, breakerSound w -> breakerSound (snd (run env steps w)).
Proof.
  induction steps as [|s steps IH]; intros w Hw; [exact Hw|].
  rewrite run_cons.
  assert (H1 : breakerSound (snd (step env s w))).
  { destruct s as [input|key]; cbn [step]; unfold bind, ret.
    - pose proof (sound_processMessage input w Hw) as H.
      destruct (processMessage env input w). exact H.
    - assert (H : circuitBreaker (snd (cleanupExpired env key w)) = circuitBreaker w).
      { unfold_stage. fields. destruct (requestCache w !! key) as [entry|]; [|reflexivity].
        cbv beta. fields. destruct (expiresAt entry <=? clock env (ticks w)); reflexivity. }
      destruct (cleanupExpired env key w) as [[] w1]. exact (sound_same _ _ H Hw). }
  destruct (step env s w) as [r w1]. cbn [snd] in H1. specialize (IH w1 H1).
  destruct (run env steps w1). exact IH.
Qed.

(** C4, as the code has it. A breaker is open only with at least three
    failures on record.  For a call that passes the rate limit and finds
    no live idempotency entry while the breaker is open: as long as at
    most 30 seconds have passed since [lastFailure] the call returns a
    fallback ([success = true], [model = 'fallback']) without an upstream
    attempt and the breaker stays as it is; once more than 30 seconds
    have passed the breaker is cleared ([isOpen = false], [failures = 0]),
    whatever happened in between, and the call attempts upstream. *)
Theorem circuit_breaker_cooldown input w startTime w1 w2 breaker :
  rateGate env input w = ((startTime, true), w1) ->
  idempotencyCheck env input w1 = (None, w2) ->
  circuitBreaker w !! aiEndpoint = Some breaker ->
  isOpen breaker = true ->
  let elapsed := clock env (ticks w2) - lastFailure breaker in
  let '(out, w') := processMessage env input w in
  (forall steps, breakerSound (snd (run env steps initial))) /\
  (breakerSound w -> breakerSound w') /\
  (elapsed <= 30000 ->
     exists r, out = Returned r /\ success r = true /\ model (metadata r) = "fallback" /\
               fetches w' = fetches w /\ circuitBreaker w' !! aiEndpoint = Some breaker) /\
  (30000 < elapsed ->
     circuitBreaker (snd (checkCircuitBreaker env aiEndpoint w2)) !! aiEndpoint
       = Some {| failures := 0; lastFailure := lastFailure breaker; isOpen := false |} /\
     (fetches w < fetches w')%nat).
Proof.
  intros Hadmit Hidem Hb Hopen elapsed.
  pose proof (sound_processMessage input w) as Hsound.
  pose proof (processMessage_stages input w) as Hstages.
  destruct (processMessage env input w) as [out w'].
  split.
  { intros steps. apply sound_run. intros ep b H. cbn in H. rewrite lookup_empty in H.
    discriminate. }
  split; [exact Hsound|].
  rewrite Hadmit in Hstages. cbn [negb] in Hstages. rewrite Hidem in Hstages.
  destruct (rateGate_run input w) as (? & ? & Hadmit' & _ & _ & Hb1 & _ & Hf1 & _).
  rewrite Hadmit in Hadmit'. injection Hadmit' as _ _ <-.
  destruct (idempotencyCheck_frame input w1) as (_ & Hb2 & Hf2).
  rewrite Hidem in Hb2, Hf2. cbn [snd] in Hb2, Hf2.
  destruct (checkCircuitBreaker_run aiEndpoint w2)
    as (closed & w3 & Hbrk & _ & _ & Hf3 & _ & _ & Hcase).
  rewrite Hb2, Hb1, Hb, Hopen in Hcase. cbn [andb] in Hcase. fold elapsed in Hcase.
  rewrite Hbrk in Hstages. rewrite Hbrk. cbn [snd].
  split.
  - intros Hwithin.
    replace (elapsed >? 30000) with false in Hcase
      by (symmetry; rewrite Z.gtb_ltb; apply Z.ltb_ge; exact Hwithin).
    destruct Hcase as [-> Hsame]. cbn [negb] in Hstages.
    destruct (createFallbackResponse_fields (message input) (conversationId input)
                "Circuit breaker open" None w3)
      as (r & w4 & Hfb & Hs & Hm & _ & _ & (_ & _ & Hb4) & Hf4 & _).
    rewrite Hfb in Hstages. injection Hstages as -> ->.
    exists r. repeat split; auto; congruence.
  - intros Hbeyond.
    replace (elapsed >? 30000) with true in Hcase
      by (symmetry; rewrite Z.gtb_ltb; apply Z.ltb_lt; exact Hbeyond).
    destruct Hcase as [-> Hcleared]. cbn [negb] in Hstages.
    split; [exact Hcleared|].
    pose proof (upstreamCall_fetches input w3) as Hup.
    destruct (upstreamCall env input w3) as [[result|e] w4]; cbn [snd] in Hup.
    + destruct (succeed_run input startTime result w4) as (r & w5 & Hs & Hf5 & _).
      rewrite Hs in Hstages. injection Hstages as _ ->. lia.
    + pose proof (recover_frame input startTime e w4) as Hf5.
      rewrite <- Hstages in Hf5. cbn [snd] in Hf5. lia.
Qed.

(** *** A successful upstream call *)

Lemma interpret_returned message response result :
  interpret message response = Returned result ->
  truthy (ai_completion result) = true /\ ai_model result = "claude-3-5-sonnet".
Proof.
  unfold interpret. intros H.
  destruct response as [reason|ok status statusText body]; [discriminate|].
  destruct ok; cbn [negb] in H; [|discriminate].
  destruct body as [reason| |completion tokens]; try discriminate.
  destruct (truthy completion) eqn:Ht; cbn [negb] in H; [|discriminate].
  injection H as <-. split; [exact Ht | reflexivity].
Qed.

Lemma retryLoop_returned m ms mx n : forall a e w result w',
  retryLoop env m ms mx n a e w = (Returned result, w') ->
  truthy (ai_completion result) = true /\ ai_model result = "claude-3-5-sonnet".
Proof.
  induction n as [|n IH]; intros a e w result w' Hrun; [discriminate|].
  rewrite retryLoop_S in Hrun. unfold bind at 1 in Hrun.
  pose proof (attemptOnce_result m ms a w) as Hres.
  destruct (attemptOnce env m ms a w) as [[r|err] w1]; cbn [fst] in Hres.
  - injection Hrun as <- _. apply (interpret_returned m (upstream env (fetches w))).
    symmetry. exact Hres.
  - unfold bind in Hrun. destruct (when (a <? mx) (backoff env a) w1) as [[] w2].
    exact (IH _ _ _ _ _ Hrun).
Qed.

(** C8, as the code has it. A call that passes the rate limit, finds no
    live idempotency entry and a closed breaker, and whose upstream call
    succeeds with a completion string, returns [success = true], that
    string as [message.content], role assistant, the live model id and
    [cached = false]; the breaker is left with [failures = 0] and
    [isOpen = false]; and under a non-empty idempotency key the response is
    cached to expire 24 hours after the write. *)
Theorem upstream_success input w startTime w1 w2 w3 result w4 text :
  rateGate env input w = ((startTime, true), w1) ->
  idempotencyCheck env input w1 = (None, w2) ->
  checkCircuitBreaker env aiEndpoint w2 = (true, w3) ->
  upstreamCall env input w3 = (Returned result, w4) ->
  ai_completion result = JsString text ->
  exists r w',
    processMessage env input w = (Returned r, w') /\
    success r = true /\
    content (out_message r) = JsString text /\
    role (out_message r) = Assistant /\
    model (metadata r) = "claude-3-5-sonnet" /\
    cached (metadata r) = false /\
    (exists breaker, circuitBreaker w' !! aiEndpoint = Some breaker /\
                     failures breaker = 0 /\ isOpen breaker = false) /\
    (forall key, keyGiven (idempotencyKey input) = Some key ->
       requestCache w' !! key
       = Some {| data := r; expiresAt := clock env (S (S (ticks w4))) + 86400000 |}).
Proof.
  intros Hadmit Hidem Hbrk Hup Htext.
  destruct (retryLoop_returned _ _ _ _ _ _ _ _ _ Hup) as [Htruthy Hmodel].
  destruct (succeed_fields input startTime result w4)
    as (r & w' & Hs & Hsucc & Hrole & Hcontent & Hm & Hcached).
  destruct (succeed_run input startTime result w4) as (r' & w'' & Hs' & _ & Hbreaker & Hcache).
  rewrite Hs in Hs'. injection Hs' as <- <-.
  exists r, w'. rewrite processMessage_stages, Hadmit. cbn [negb].
  rewrite Hidem, Hbrk. cbn [negb]. rewrite Hup.
  split; [exact Hs|]. split; [exact Hsucc|].
  split. { rewrite Hcontent. unfold jsOr. rewrite Htruthy. exact Htext. }
  split; [exact Hrole|].
  split. { rewrite Hm, Hmodel. reflexivity. }
  split; [exact Hcached|].
  split.
  - destruct (checkCircuitBreaker_run aiEndpoint w2) as (closed & w3' & Hbrk' & _ & _ & _ & _ & _ & Hcase).
    rewrite Hbrk in Hbrk'. injection Hbrk' as <- <-.
    destruct (upstreamCall_maps input w3) as (_ & _ & Hb4). rewrite Hup in Hb4. cbn [snd] in Hb4.
    assert (Hex : exists b, circuitBreaker w4 !! aiEndpoint = Some b).
    { rewrite Hb4. destruct (circuitBreaker w2 !! aiEndpoint) as [b|].
      - destruct (isOpen b && _)%bool; destruct Hcase as [_ ->]; eauto.
      - destruct Hcase as [_ ->]. eauto. }
    destruct Hex as [b Hb]. eexists. split; [exact (Hbreaker b Hb) | split; reflexivity].
  - intros key Hkey. rewrite Hkey in Hcache. exact Hcache.
Qed.

(** *** A missing completion *)

(** C10, as the code has it. An HTTP-ok response whose completion is the
    empty string is treated exactly like one without a completion: both
    raise 'Invalid AI API response: missing completion', and the loop
    goes on to another attempt.  So whatever [callAIWithRetry] returns has
    a truthy completion: never absent and never the empty string. *)
Theorem missing_completion message messages :
  (forall status statusText tokens,
     interpret message
       (FetchResponse true status statusText (JsonData (JsString EmptyString) tokens))
     = Threw (ErrorObj "Invalid AI API response: missing completion") /\
     interpret message
       (FetchResponse true status statusText (JsonData JsUndefined tokens))
     = Threw (ErrorObj "Invalid AI API response: missing completion")) /\
  (forall w status statusText tokens completion,
     completion = JsString EmptyString \/ completion = JsUndefined ->
     upstream env (fetches w) = FetchResponse true status statusText (JsonData completion tokens) ->
     (2 + fetches w <= fetches (snd (callAIWithRetry env message messages 3 w)))%nat) /\
  (forall maxRetries w result w',
     callAIWithRetry env message messages maxRetries w = (Returned result, w') ->
     truthy (ai_completion result) = true /\
     ai_completion result <> JsUndefined /\
     forall s, ai_completion result = JsString s -> s <> EmptyString).
Proof.
  split; [intros; split; reflexivity|]. split.
  - intros w status statusText tokens completion Hc Hup.
    unfold callAIWithRetry. change (Z.to_nat 3) with 3%nat.
    rewrite retryLoop_S. unfold bind at 1.
    pose proof (attemptOnce_result message messages 1 w) as Hres.
    rewrite Hup in Hres.
    assert (Hthrow : interpret message
                       (FetchResponse true status statusText (JsonData completion tokens))
                     = Threw (ErrorObj "Invalid AI API response: missing completion"))
      by (destruct Hc as [-> | ->]; reflexivity).
    rewrite Hthrow in Hres.
    destruct (attemptOnce env message messages 1 w) as [out w1] eqn:Hatt.
    cbn [fst] in Hres. subst out.
    assert (Hf1 : fetches w1 = S (fetches w)).
    { apply (f_equal snd) in Hatt. cbn [snd] in Hatt. subst w1. reflexivity. }
    unfold bind at 1.
    destruct (when (1 <? 3) (backoff env 1) w1) as [[] w2] eqn:Hb.
    assert (Hf2 : fetches w2 = fetches w1).
    { apply (f_equal snd) in Hb. cbn in Hb. subst w2. reflexivity. }
    rewrite retryLoop_S. unfold bind at 1.
    destruct (attemptOnce env message messages (1 + 1) w2) as [[r|err] w3] eqn:Hatt2;
      apply (f_equal snd) in Hatt2; cbn [snd] in Hatt2;
      assert (Hf3 : fetches w3 = S (fetches w2)) by (subst w3; reflexivity).
    + cbn. lia.
    + unfold bind. destruct (when (1 + 1 <? 3) (backoff env (1 + 1)) w3) as [[] w4] eqn:Hb2.
      assert (Hf4 : fetches w4 = fetches w3).
      { apply (f_equal snd) in Hb2. cbn in Hb2. subst w4. reflexivity. }
      pose proof (retryLoop_fetches message messages 3 1 (1 + 1 + 1) err w4). lia.
  - intros maxRetries w result w' Hrun.
    destruct (retryLoop_returned _ _ _ _ _ _ _ _ _ Hrun) as [Ht _].
    split; [exact Ht|]. split.
    + intros Hu. rewrite Hu in Ht. discriminate.
    + intros s Hs ->. rewrite Hs in Ht. discriminate.
Qed.

End ServerFacts.

(** * Properties of the chat context *)

Section ClientFacts.

Import Client.

Variable env : Env.

Ltac unfold_client :=
  cbv beta iota zeta delta
    [sendMessage processOfflineQueue handleFailure showReply saveOfflineQueue chooseConversation
     setCurrentConversationId setMessages setIsSending setStreamingMessage
     setIsStreaming setConnectionStatus storeQueue perform dateNow mutateAsync
     setItem when bind ret gets modify fst snd].

Ltac chat_fields :=
  cbn [currentConversationId messages isSending streamingMessage isStreaming
       offlineQueue connectionStatus storedQueue effects ticks calls writes fst snd].

Lemma dropLast_snoc {A} (l : list A) (x : A) : dropLast (l ++ [x]) = l.
Proof.
  unfold dropLast. rewrite length_app. cbn [length].
  replace (length l + 1 - 1)%nat with (length l) by lia.
  rewrite take_app_length. reflexivity.
Qed.

Lemma chooseConversation_frame snap c :
  let c' := snd (chooseConversation env snap c) in
  messages c' = messages c /\ isSending c' = isSending c /\
  streamingMessage c' = streamingMessage c /\ isStreaming c' = isStreaming c /\
  offlineQueue c' = offlineQueue c /\ connectionStatus c' = connectionStatus c /\
  storedQueue c' = storedQueue c /\ effects c' = effects c /\
  calls c' = calls c /\ writes c' = writes c.
Proof.
  unfold_client. destruct (currentConversationId snap) as [id|];
    [destruct (nonEmpty id)|]; chat_fields; repeat split.
Qed.

(** The [catch] block of [sendMessage], from any state. *)
Lemma handleFailure_run snap userMessage error c :
  let '(out, c') := handleFailure env snap userMessage error c in
  out = Threw (ErrorObj (friendlyError error)) /\
  streamingMessage c' = EmptyString /\ isStreaming c' = false /\
  if isNetworkError error then
    messages c' = messages c /\ connectionStatus c' = Offline /\
    if storage env (writes c)
    then offlineQueue c' = (offlineQueue snap ++ [userMessage])%list /\
         storedQueue c' = Some (offlineQueue snap ++ [userMessage])%list
    else offlineQueue c' = offlineQueue c /\ storedQueue c' = storedQueue c
  else
    messages c' = dropLast (messages c) /\ offlineQueue c' = offlineQueue c /\
    storedQueue c' = storedQueue c /\ connectionStatus c' = connectionStatus c.
Proof.
  unfold handleFailure. destruct (isNetworkError error).
  - unfold_client. chat_fields. destruct (storage env (writes c)); repeat split.
  - unfold_client. chat_fields. repeat split.
Qed.

(** C7, as the code has it. A send that is not queued offline and whose
    mutation rejects: the caller gets the friendly error and the streaming
    buffer, streaming flag and sending flag are cleared.  For a
    non-network failure the message list is exactly what it was before the
    send, and queue, stored queue and connection status are untouched; a
    rate-limit rejection reads 'Please wait a moment ...', any other
    'Failed to send message: ...'.  For a network failure the user message
    stays in the list, the connection status becomes offline, and the
    message is appended to the offline queue when the write to storage
    succeeds; when the write fails the queue is left as it was. *)
Theorem send_failure text c error :
  nonEmpty (trim text) = true ->
  isSending c = false ->
  connectionStatus c <> Offline ->
  server env (calls c) = Rejected error ->
  let userMessage :=
    {| role := User; content := trim text; timestamp := clock env (ticks c) |} in
  let '(out, c') := sendMessage env text c in
  out = Threw (ErrorObj (friendlyError error)) /\
  streamingMessage c' = EmptyString /\ isStreaming c' = false /\ isSending c' = false /\
  (isNetworkError error = false ->
     messages c' = messages c /\ offlineQueue c' = offlineQueue c /\
     storedQueue c' = storedQueue c /\ connectionStatus c' = connectionStatus c /\
     friendlyError error =
       let errorMessage := strOr (default EmptyString error) "Unknown error" in
       if includes errorMessage "Rate limit"
       then "Please wait a moment before sending another message."
       else "Failed to send message: " +:+ errorMessage) /\
  (isNetworkError error = true ->
     messages c' = (messages c ++ [userMessage])%list /\
     connectionStatus c' = Offline /\
     if storage env (writes c)
     then offlineQueue c' = (offlineQueue c ++ [userMessage])%list /\
          storedQueue c' = Some (offlineQueue c ++ [userMessage])%list
     else offlineQueue c' = offlineQueue c /\ storedQueue c' = storedQueue c).
Proof.
  intros Htext Hidle Honline Hreply userMessage.
  unfold sendMessage. unfold bind at 1. unfold gets. cbv beta iota.
  rewrite Htext, Hidle. cbn [negb orb].
  unfold bind at 1. unfold dateNow at 1. cbv beta iota.
  unfold bind at 1. unfold setMessages at 1, modify. cbv beta iota.
  assert (Hbody : forall A (k1 k2 : State Chat A) s,
            match connectionStatus c with Offline => k1 | _ => k2 end s = k2 s).
  { intros A k1 k2 s. destruct (connectionStatus c); [reflexivity | congruence | reflexivity]. }
  rewrite Hbody. clear Hbody.
  unfold bind at 1. unfold setIsSending at 1, modify. cbv beta iota.
  unfold bind at 1. unfold setIsStreaming at 1, modify. cbv beta iota.
  unfold bind at 1. unfold setStreamingMessage at 1, modify. cbv beta iota. chat_fields.
  unfold bind at 1.
  match goal with |- context [chooseConversation env c ?s] =>
    pose proof (chooseConversation_frame c s) as Hframe;
    destruct (chooseConversation env c s) as [conversationId c1] end.
  cbn [snd] in Hframe. chat_fields. cbn in Hframe.
  destruct Hframe as (Hm & Hs & Hsm & Hst & Hq & Hcs & Hsq & He & Hc & Hw).
  unfold bind at 1. unfold mutateAsync at 1. cbv beta iota. rewrite Hc, Hreply.
  unfold bind at 1. subst userMessage.
  match goal with |- context [handleFailure env c ?u error ?s] =>
    pose proof (handleFailure_run c u error s) as Hcatch;
    destruct (handleFailure env c u error s) as [out c2] end.
  chat_fields. cbn [messages offlineQueue storedQueue connectionStatus writes isSending] in Hcatch.
  destruct Hcatch as (-> & Hsm2 & Hst2 & Hcase).
  unfold bind, setIsSending, modify, ret. chat_fields.
  split; [reflexivity|]. split; [exact Hsm2|]. split; [exact Hst2|]. split; [reflexivity|].
  rewrite Hw, Hm, Hq, Hsq, Hcs in Hcase.
  destruct (isNetworkError error) eqn:Hnet.
  - split; [discriminate|]. intros _. destruct Hcase as (Hm2 & Hcs2 & Hrest).
    split; [exact Hm2|]. split; [exact Hcs2|]. exact Hrest.
  - split; [|discriminate]. intros _. destruct Hcase as (Hm2 & Hq2 & Hsq2 & Hcs2).
    rewrite dropLast_snoc in Hm2. repeat split; try assumption.
    unfold friendlyError. rewrite Hnet. reflexivity.
Qed.

End ClientFacts.

(** * The properties at work *)

Section ServerExamples.

Import Server Scenario.

Lemma rate_limit_window_witness :
  opensWindow (rateNow (steady 1000 okReply) initial)
    (rateLimitMap initial !! conversationId hello) = true /\
  (forall k, (S (ticks initial) < k)%nat ->
     clock (steady 1000 okReply) k <= rateNow (steady 1000 okReply) initial + 60000) /\
  (admittedFor (conversationId hello) (Request hello :: burst)
     (fst (run (steady 1000 okReply) (Request hello :: burst) initial)) <= 15)%nat.
Proof.
  assert (H1 : opensWindow (rateNow (steady 1000 okReply) initial)
                 (rateLimitMap initial !! conversationId hello) = true) by reflexivity.
  assert (H2 : forall k, (S (ticks initial) < k)%nat ->
                 clock (steady 1000 okReply) k <= rateNow (steady 1000 okReply) initial + 60000)
    by (intros k _; cbn; lia).
  split; [exact H1|]. split; [exact H2|].
  exact (proj1 (proj2 (rate_limit_window (steady 1000 okReply) hello burst initial H1 H2))).
Defined.

Lemma upstream_failure_never_escapes_witness :
  snd (fst (rateGate (steady 1000 serverError) hello initial)) = true /\
  exists r, fst (processMessage (steady 1000 serverError) hello initial) = Returned r.
Proof.
  assert (Ha : snd (fst (rateGate (steady 1000 serverError) hello initial)) = true)
    by (vm_compute; reflexivity).
  split; [exact Ha|].
  pose proof (upstream_failure_never_escapes (steady 1000 serverError) hello initial) as H.
  destruct (processMessage (steady 1000 serverError) hello initial) as [out w'].
  destruct (rateGate (steady 1000 serverError) hello initial) as [[st allowed] w1].
  cbn [fst snd] in *. exact (proj1 H Ha).
Defined.

Lemma retry_budget_witness :
  interpret (message hello) (upstream (steady 1000 serverError) 0) = Threw http500 /\
  (forall k, (0 <= random (steady 1000 serverError) k)%Q /\
             (random (steady 1000 serverError) k < 1)%Q) /\
  fst (callAIWithRetry (steady 1000 serverError) (message hello) [] 3 initial) = Threw http500 /\
  fetches (snd (callAIWithRetry (steady 1000 serverError) (message hello) [] 3 initial)) = 3%nat.
Proof.
  assert (H1 : forall k, interpret (message hello) (upstream (steady 1000 serverError) k)
                         = Threw http500) by (intros k; vm_compute; reflexivity).
  assert (H2 : forall k, (0 <= random (steady 1000 serverError) k)%Q /\
                         (random (steady 1000 serverError) k < 1)%Q)
    by (intros k; split; [discriminate | reflexivity]).
  split; [apply H1|]. split; [exact H2|].
  pose proof (retry_budget (steady 1000 serverError) hello initial http500 http500 http500
                (H1 _) (H1 _) (H1 _) H2) as H.
  change (default [] (messages hello)) with (@nil InMessage) in H.
  destruct (callAIWithRetry (steady 1000 serverError) (message hello) [] 3 initial) as [out w'].
  cbn [fst snd]. destruct H as (Hout & Hf & _). split; [exact Hout | exact Hf].
Defined.

Lemma cached_flag_never_set_witness :
  In (Some (Returned helloReply))
     (fst (run (steady 1000 okReply) [Request helloKeyed; Request helloKeyed] initial)) /\
  cached (metadata helloReply) = false.
Proof.
  assert (H : In (Some (Returned helloReply))
                (fst (run (steady 1000 okReply) [Request helloKeyed; Request helloKeyed]
                        initial)))
    by (vm_compute; right; left; reflexivity).
  split; [exact H|].
  exact (cached_flag_never_set (steady 1000 okReply) _ _ H).
Defined.

Lemma idempotent_replay_witness :
  keyGiven (idempotencyKey helloKeyed) = Some "msg-1" /\
  requestCache remembered !! "msg-1" = Some storedEntry /\
  fst (processMessage (steady 1000 okReply) helloKeyed remembered) = Returned storedResponse.
Proof.
  assert (H1 : keyGiven (idempotencyKey helloKeyed) = Some "msg-1") by reflexivity.
  assert (H2 := pair_with_flag (rateGate (steady 1000 okReply) helloKeyed remembered) true
                  ltac:(vm_compute; reflexivity)).
  assert (H3 : requestCache remembered !! "msg-1" = Some storedEntry)
    by (vm_compute; reflexivity).
  split; [exact H1|]. split; [exact H3|].
  destruct (proj1 (idempotent_replay (steady 1000 okReply) helloKeyed remembered "msg-1"
                     storedEntry _ _ H1 H2 H3)) as (w' & Hrun & _).
  - vm_compute. reflexivity.
  - rewrite Hrun. reflexivity.
Defined.

(** C3 as stated fails: the rate limit comes before the cache, so a call
    with a live entry can be rejected instead of replayed; and an expired
    entry behind an open breaker leads to a fallback, not to an upstream
    attempt. *)
Lemma idempotent_replay_counterexample :
  (idempotencyKey helloKeyed = Some "msg-1" /\
   requestCache saturated !! "msg-1" = Some storedEntry /\
   (forall k, clock (steady 1000 okReply) k < expiresAt storedEntry) /\
   fst (processMessage (steady 1000 okReply) helloKeyed saturated) = Threw rateLimitError /\
   fst (processMessage (steady 1000 okReply) helloKeyed saturated)
     <> Returned (data storedEntry)) /\
  (requestCache brokenOpenStale !! "msg-1" = Some staleEntry /\
   (forall k, expiresAt staleEntry <= clock (steady 20000 okReply) k) /\
   fetches (snd (processMessage (steady 20000 okReply) helloKeyed brokenOpenStale))
     = fetches brokenOpenStale).
Proof.
  assert (H : fst (processMessage (steady 1000 okReply) helloKeyed saturated)
              = Threw rateLimitError) by (vm_compute; reflexivity).
  split.
  - split; [reflexivity|]. split; [vm_compute; reflexivity|].
    split; [intros k; reflexivity|]. split; [exact H|]. rewrite H. discriminate.
  - split; [vm_compute; reflexivity|]. split; [intros k; discriminate|].
    vm_compute. reflexivity.
Qed.

Lemma circuit_breaker_cooldown_witness :
  circuitBreaker brokenOpen !! aiEndpoint = Some tripped /\
  isOpen tripped = true /\
  exists r, fst (processMessage (steady 20000 okReply) hello brokenOpen) = Returned r /\
            model (metadata r) = "fallback".
Proof.
  assert (H1 := pair_with_flag (rateGate (steady 20000 okReply) hello brokenOpen) true
                  ltac:(vm_compute; reflexivity)).
  assert (H2 := pair_with_fst
                  (idempotencyCheck (steady 20000 okReply) hello
                     (snd (rateGate (steady 20000 okReply) hello brokenOpen))) None
                  ltac:(vm_compute; reflexivity)).
  assert (H3 : circuitBreaker brokenOpen !! aiEndpoint = Some tripped)
    by (vm_compute; reflexivity).
  assert (H4 : isOpen tripped = true) by reflexivity.
  split; [exact H3|]. split; [exact H4|].
  pose proof (circuit_breaker_cooldown (steady 20000 okReply) hello brokenOpen _ _ _ tripped
                H1 H2 H3 H4) as H.
  cbv zeta in H.
  destruct (processMessage (steady 20000 okReply) hello brokenOpen) as [out w'].
  destruct H as (_ & _ & Hwithin & _).
  destruct Hwithin as (r & -> & _ & Hm & _); [vm_compute; discriminate|].
  exists r. split; [reflexivity | exact Hm].
Defined.

(** C4 as stated fails: at exactly 30 seconds after the last failure the
    breaker is still open and the call is answered by a fallback without an
    upstream attempt; and an open breaker does not turn a live idempotency
    entry into a fallback. *)
Lemma circuit_breaker_cooldown_counterexample :
  (circuitBreaker brokenOpen !! aiEndpoint = Some tripped /\
   (forall k, clock (steady 30000 okReply) k - lastFailure tripped = 30000) /\
   circuitBreaker (snd (processMessage (steady 30000 okReply) hello brokenOpen)) !! aiEndpoint
     = Some tripped /\
   fetches (snd (processMessage (steady 30000 okReply) hello brokenOpen))
     = fetches brokenOpen) /\
  (circuitBreaker brokenOpenRemembered !! aiEndpoint = Some tripped /\
   (forall k, clock (steady 20000 okReply) k - lastFailure tripped < 30000) /\
   fst (processMessage (steady 20000 okReply) helloKeyed brokenOpenRemembered)
     = Returned storedResponse /\
   model (metadata storedResponse) <> "fallback").
Proof.
  split.
  - split; [vm_compute; reflexivity|]. split; [intros k; reflexivity|].
    split; vm_compute; reflexivity.
  - split; [vm_compute; reflexivity|]. split; [intros k; reflexivity|].
    split; [vm_compute; reflexivity | discriminate].
Qed.

Lemma upstream_success_witness :
  exists r w',
    processMessage (steady 1000 okReply) helloKeyed initial = (Returned r, w') /\
    content (out_message r) = JsString "hi there" /\
    requestCache w' !! "msg-1" = Some {| data := r; expiresAt := 1000 + 86400000 |}.
Proof.
  assert (H1 := pair_with_flag (rateGate (steady 1000 okReply) helloKeyed initial) true
                  ltac:(vm_compute; reflexivity)).
  assert (H2 := pair_with_fst
                  (idempotencyCheck (steady 1000 okReply) helloKeyed
                     (snd (rateGate (steady 1000 okReply) helloKeyed initial))) None
                  ltac:(vm_compute; reflexivity)).
  assert (H3 := pair_with_fst
                  (checkCircuitBreaker (steady 1000 okReply) aiEndpoint
                     (snd (idempotencyCheck (steady 1000 okReply) helloKeyed
                        (snd (rateGate (steady 1000 okReply) helloKeyed initial))))) true
                  ltac:(vm_compute; reflexivity)).
  assert (H4 := pair_with_fst
                  (upstreamCall (steady 1000 okReply) helloKeyed
                     (snd (checkCircuitBreaker (steady 1000 okReply) aiEndpoint
                        (snd (idempotencyCheck (steady 1000 okReply) helloKeyed
                           (snd (rateGate (steady 1000 okReply) helloKeyed initial)))))))
                  (Returned {| ai_completion := JsString "hi there";
                               ai_model := "claude-3-5-sonnet";
                               ai_tokensUsed := JsNumber (inject_Z 2) |})
                  ltac:(vm_compute; reflexivity)).
  destruct (upstream_success (steady 1000 okReply) helloKeyed initial _ _ _ _ _ _ "hi there"
              H1 H2 H3 H4 eq_refl)
    as (r & w' & Hrun & _ & Hcontent & _ & _ & _ & _ & Hcache).
  exists r, w'. split; [exact Hrun|]. split; [exact Hcontent|].
  exact (Hcache "msg-1" eq_refl).
Defined.

(** C8 as stated fails on the empty key: [if (idempotencyKey)] takes the
    empty string for no key, and the response is not cached. *)
Lemma upstream_success_counterexample :
  idempotencyKey helloEmptyKey = Some EmptyString /\
  (exists r, fst (processMessage (steady 1000 okReply) helloEmptyKey initial) = Returned r /\
             content (out_message r) = JsString "hi there") /\
  requestCache (snd (processMessage (steady 1000 okReply) helloEmptyKey initial))
    !! EmptyString = None.
Proof.
  split; [reflexivity|]. split.
  - exists helloReply. split; [vm_compute; reflexivity | reflexivity].
  - vm_compute. reflexivity.
Qed.

Lemma missing_completion_witness :
  upstream (after emptyCompletion okReply) (fetches initial) = emptyCompletion /\
  (2 + fetches initial
   <= fetches (snd (callAIWithRetry (after emptyCompletion okReply) "hello" [] 3 initial)))%nat.
Proof.
  split; [reflexivity|].
  exact (proj1 (proj2 (missing_completion (after emptyCompletion okReply) "hello" []))
           initial 200 "OK" JsUndefined (JsString EmptyString) (or_introl eq_refl) eq_refl).
Defined.

(** C10 as stated fails in its last part: a truthy completion that is
    not a string, such as the number 42, is returned as it is. *)
Lemma missing_completion_counterexample :
  exists result,
    fst (callAIWithRetry (steady 1000 numericReply) "hello" [] 3 initial) = Returned result /\
    ai_completion result = JsNumber 42 /\
    forall s, ai_completion result <> JsString s.
Proof.
  exists {| ai_completion := JsNumber 42; ai_model := "claude-3-5-sonnet";
            ai_tokensUsed := JsNumber (inject_Z 2) |}.
  split; [vm_compute; reflexivity|]. split; [reflexivity | discriminate].
Qed.

End ServerExamples.

Section ClientExamples.

Import Client ClientScenario.

(** The drain counts processed pairs, so it relies on every resolved
    reply being a success.  Were the first of two mutations to resolve
    with [success = false] and the second with [success = true], the
    drain would go on past the first entry, count one pair and slice one
    entry off the front: the first message would leave the stored queue
    and the second stay in it. *)
Example drain_past_declined_reply :
  let before := chat Online [queuedA; queuedB] in
  let after := snd (processOfflineQueue declinedThenAccepted before) in
  storedQueue after = Some [queuedB] /\
  offlineQueue after = [queuedB] /\
  messages after = [replyB] /\
  effects after =
    [Sent {| req_conversationId := "conv-1"; req_message := "first";
             req_messages := [queuedA]; req_idempotencyKey := Some "offline-101" |};
     Sent {| req_conversationId := "conv-1"; req_message := "second";
             req_messages := [queuedB]; req_idempotencyKey := Some "offline-102" |};
     Scheduled 5000].
Proof. vm_compute. repeat split. Qed.

Lemma send_failure_witness :
  nonEmpty (trim "  hi  ") = true /\
  server (failing "Rate limit exceeded." true) (calls (chat Online [])) =
    Rejected (Some "Rate limit exceeded.") /\
  fst (sendMessage (failing "Rate limit exceeded." true) "  hi  " (chat Online []))
    = Threw (ErrorObj "Please wait a moment before sending another message.") /\
  messages (snd (sendMessage (failing "Rate limit exceeded." true) "  hi  " (chat Online [])))
    = messages (chat Online []).
Proof.
  assert (H1 : nonEmpty (trim "  hi  ") = true) by reflexivity.
  assert (H2 : isSending (chat Online []) = false) by reflexivity.
  assert (H3 : connectionStatus (chat Online []) <> Offline) by discriminate.
  assert (H4 : server (failing "Rate limit exceeded." true) (calls (chat Online []))
               = Rejected (Some "Rate limit exceeded.")) by reflexivity.
  split; [exact H1|]. split; [exact H4|].
  pose proof (send_failure (failing "Rate limit exceeded." true) "  hi  " (chat Online [])
                (Some "Rate limit exceeded.") H1 H2 H3 H4) as H.
  cbv zeta in H.
  destruct (sendMessage (failing "Rate limit exceeded." true) "  hi  " (chat Online []))
    as [out c'].
  cbn [fst snd]. destruct H as (-> & _ & _ & _ & Hother & _).
  destruct (Hother eq_refl) as (Hm & _). split; [reflexivity | exact Hm].
Defined.

(** C7 as stated fails in its network half when the write to storage
    fails: the message stays visible and the status goes offline, but the
    offline queue does not receive the message. *)
Lemma send_failure_counterexample :
  let before := chat Online [] in
  let after := snd (sendMessage (failing "Failed to fetch" false) "  hi  " before) in
  isNetworkError (Some "Failed to fetch") = true /\
  connectionStatus after = Offline /\
  messages after = [{| role := User; content := "hi"; timestamp := 5 |}] /\
  offlineQueue after = [] /\
  storedQueue after = Some [].
Proof. vm_compute. repeat split. Qed.

End ClientExamples.

(** * Further properties of the reliability wrapper *)

Section ServerFrames.

Import Server.

Variable env : Env.

Ltac unfold_stage :=
  cbv beta iota zeta delta
    [checkRateLimit checkCircuitBreaker recordFailure recordSuccess
     checkIdempotency setIdempotencyCache cleanupExpired createFallbackResponse
     cacheIfKeyed idempotencyCheck rateGate succeed recover attemptOnce backoff
     fetch emit dateNow mathRandom when bind ret gets modify
     withCache withRateLimit withBreaker fst snd].

Ltac fields :=
  cbn [requestCache rateLimitMap circuitBreaker ticks draws fetches trace fst snd].

(** The windows of the rate limiter after a call are those after its
    rate-limit stage. *)
Lemma processMessage_windows input w :
  rateLimitMap (snd (processMessage env input w))
  = rateLimitMap (snd (rateGate env input w)).
Proof. apply (processMessage_limits env input w). Qed.

(** X1. Rate-limit windows are per conversation: a request never changes
    the window of another conversation. *)
Theorem windows_are_per_conversation input w other :
  other <> conversationId input ->
  rateLimitMap (snd (processMessage env input w)) !! other = rateLimitMap w !! other.
Proof.
  intros Hother. rewrite processMessage_windows.
  destruct (rateGate_run env input w) as (allowed & w1 & -> & _ & _ & _ & _ & _ & Hframe & _).
  apply Hframe, Hother.
Qed.

(** X2. A request that is thrown the rate-limit error is not counted:
    it leaves every window, its own included, exactly as it was, so it
    neither uses up the budget nor prolongs the window. *)
Theorem rejection_is_not_counted input w e :
  fst (processMessage env input w) = Threw e ->
  rateLimitMap (snd (processMessage env input w)) = rateLimitMap w.
Proof.
  intros Hthrown. rewrite processMessage_windows.
  destruct (rateGate_run env input w) as (allowed & w1 & Hgate & _ & _ & _ & _ & _ & _ & Hcase).
  rewrite Hgate. cbn [snd].
  destruct allowed.
  - destruct (processMessage_allowed env input w _ _ Hgate) as [r Hr]. congruence.
  - destruct (rateLimitMap w !! conversationId input) as [limit|]; [|destruct Hcase; discriminate].
    destruct (opensWindow (rateNow env w) (Some limit)); [destruct Hcase; discriminate|].
    destruct (count limit >=? 15); destruct Hcase as [Hd Hsame]; [exact Hsame | discriminate].
Qed.

Lemma processMessage_conversations input w :
  dom (rateLimitMap (snd (processMessage env input w)))
  = dom (rateLimitMap w) ∪ {[ conversationId input ]}.
Proof.
  rewrite processMessage_windows.
  destruct (rateGate_run env input w) as (allowed & w1 & -> & _ & _ & _ & _ & _ & Hframe & Hcase).
  cbn [snd]. apply set_eq. intros cid. rewrite elem_of_union, !elem_of_dom, elem_of_singleton.
  destruct (decide (cid = conversationId input)) as [->|Hne].
  - split; [auto|]. intros _.
    destruct (rateLimitMap w !! conversationId input) as [limit|] eqn:Hl.
    + destruct (opensWindow (rateNow env w) (Some limit));
        [|destruct (count limit >=? 15)]; destruct Hcase as [_ Hc];
        rewrite Hc; try rewrite Hl; eauto.
    + destruct Hcase as [_ ->]. eauto.
  - rewrite Hframe by exact Hne. split; [auto|]. intros [H|H]; [exact H | contradiction].
Qed.

Lemma cleanupExpired_windows key w :
  rateLimitMap (snd (cleanupExpired env key w)) = rateLimitMap w.
Proof. apply (limits_cleanupExpired env key w). Qed.

Lemma run_conversations steps : forall w,
  dom (rateLimitMap (snd (run env steps w)))
  = dom (rateLimitMap w) ∪ conversationsOf steps.
Proof.
  induction steps as [|s steps IH]; intros w.
  - cbn. set_solver.
  - rewrite run_cons. destruct s as [input|key]; cbn [step conversationsOf]; unfold bind, ret.
    + pose proof (processMessage_conversations input w) as H.
      destruct (processMessage env input w) as [out w1]. cbn [snd] in H.
      specialize (IH w1). destruct (run env steps w1) as [rs w2]. cbn [snd] in *.
      rewrite IH, H. set_solver.
    + pose proof (cleanupExpired_windows key w) as H.
      destruct (cleanupExpired env key w) as [[] w1]. cbn [snd] in H.
      specialize (IH w1). destruct (run env steps w1) as [rs w2]. cbn [snd] in *.
      rewrite IH, H. reflexivity.
Qed.

(** X3. The rate limiter never forgets a conversation: after any run of
    requests and eviction timers the conversations with a window are
    those that had one before together with those that sent a request. *)
Theorem windows_are_never_dropped steps w :
  dom (rateLimitMap (snd (run env steps w)))
  = dom (rateLimitMap w) ∪ conversationsOf steps.
Proof. apply run_conversations. Qed.

(** ** The fetch budget *)

Lemma retryLoop_budget m ms mx n : forall a e w,
  (fetches (snd (retryLoop env m ms mx n a e w)) <= fetches w + n)%nat.
Proof.
  induction n as [|n IH]; intros a e w; [cbn; lia|].
  rewrite retryLoop_S. unfold bind at 1.
  destruct (attemptOnce env m ms a w) as [[r|err] w1] eqn:Hatt;
    apply (f_equal snd) in Hatt; cbn [snd] in Hatt;
    assert (Hf : fetches w1 = S (fetches w)) by (subst w1; reflexivity).
  - cbn. lia.
  - unfold bind. destruct (when (a <? mx) (backoff env a) w1) as [[] w2] eqn:Hb.
    assert (Hf2 : fetches w2 = fetches w1).
    { apply (f_equal snd) in Hb. cbn [snd] in Hb. subst w2.
      unfold when. destruct (a <? mx); reflexivity. }
    specialize (IH (a + 1) err w2). lia.
Qed.

(** X4. One call of [processMessage] fetches the completion endpoint at
    most three times, and not at all when it is rate limited, served from
    the idempotency cache or stopped by an open breaker. *)
Theorem fetch_budget input w :
  let '(gate, w1) := rateGate env input w in
  let '(hit, w2) := idempotencyCheck env input w1 in
  let '(closed, _) := checkCircuitBreaker env aiEndpoint w2 in
  let w' := snd (processMessage env input w) in
  (fetches w <= fetches w' <= fetches w + 3)%nat /\
  (snd gate = false \/ hit <> None \/ closed = false -> fetches w' = fetches w).
Proof.
  rewrite processMessage_stages.
  destruct (rateGate_run env input w) as (allowed & w1 & -> & _ & _ & _ & _ & Hf1 & _).
  pose proof (idempotencyCheck_frame env input w1) as (_ & _ & Hf2).
  destruct (idempotencyCheck env input w1) as [hit w2]. cbn [snd] in Hf2.
  destruct (checkCircuitBreaker_run env aiEndpoint w2) as (closed & w3 & -> & _ & _ & Hf3 & _).
  cbn [snd].
  destruct allowed; cbn [negb snd].
  2:{ split; [lia | intros _; exact Hf1]. }
  destruct hit as [cached|]; cbn [snd].
  { split; [lia | intros _; lia]. }
  destruct closed; cbn [negb].
  - pose proof (upstreamCall_fetches env input w3) as Hlow.
    pose proof (retryLoop_budget (message input) (default [] (messages input)) 3 3 1
                  ThrownUndefined w3) as Hhigh.
    change (retryLoop env (message input) (default [] (messages input)) 3 3 1 ThrownUndefined w3)
      with (upstreamCall env input w3) in Hhigh.
    destruct (upstreamCall env input w3) as [[result|e] w4]; cbn [snd] in Hlow, Hhigh.
    + destruct (succeed_run env input (clock env (ticks w)) result w4) as (r & w5 & -> & Hf5 & _).
      cbn [snd]. split; [lia|]. intros [H|[H|H]]; [discriminate | congruence | discriminate].
    + pose proof (recover_frame env input (clock env (ticks w)) e w4) as Hf5.
      split; [lia|]. intros [H|[H|H]]; [discriminate | congruence | discriminate].
  - destruct (createFallbackResponse_fields env (message input) (conversationId input)
                "Circuit breaker open" None w3) as (r & w4 & -> & _ & _ & _ & _ & _ & Hf4 & _).
    cbn [snd]. split; [lia | intros _; lia].
Qed.

(** ** Failures: the breaker's count and the short-lived cache entry *)

Lemma recover_run input startTime reason w :
  exists r w',
    recover env input startTime (ErrorObj reason) w = (Returned r, w') /\
    success r = true /\ model (metadata r) = "fallback" /\
    error (metadata r) = Some reason /\
    fetches w' = fetches w /\
    circuitBreaker w' !! aiEndpoint
      = Some (let breaker := default freshBreaker (circuitBreaker w !! aiEndpoint) in
              {| failures := failures breaker + 1;
                 lastFailure := clock env (ticks w);
                 isOpen := if failures breaker + 1 >=? 3 then true else isOpen breaker |}) /\
    match keyGiven (idempotencyKey input) with
    | Some key =>
        requestCache w' !! key
        = Some {| data := r; expiresAt := clock env (3 + ticks w) + errorTtlMs |}
    | None => requestCache w' = requestCache w
    end.
Proof.
  unfold_stage. fields.
  destruct (keyGiven (idempotencyKey input)) as [key|];
    eexists _, _; (split; [reflexivity|]); fields;
    repeat split; by simplify_map_eq.
Qed.

(** X5. Each call whose upstream attempts are exhausted adds one to the
    breaker's failure count and stamps [lastFailure]; the breaker opens
    exactly when the count reaches three. *)
Theorem failures_are_counted input w startTime w1 w2 w3 e w4 :
  rateGate env input w = ((startTime, true), w1) ->
  idempotencyCheck env input w1 = (None, w2) ->
  checkCircuitBreaker env aiEndpoint w2 = (true, w3) ->
  upstreamCall env input w3 = (Threw e, w4) ->
  exists before,
    circuitBreaker w3 !! aiEndpoint = Some before /\ isOpen before = false /\
    circuitBreaker (snd (processMessage env input w)) !! aiEndpoint
    = Some {| failures := failures before + 1;
              lastFailure := clock env (ticks w4);
              isOpen := failures before + 1 >=? 3 |}.
Proof.
  intros Hgate Hidem Hbrk Hup.
  destruct (upstreamCall_throws env _ _ _ _ Hup) as [reason ->].
  rewrite processMessage_stages, Hgate. cbn [negb]. rewrite Hidem, Hbrk. cbn [negb].
  rewrite Hup.
  destruct (checkCircuitBreaker_run env aiEndpoint w2)
    as (closed & w3' & Hbrk' & _ & _ & _ & _ & _ & Hcase).
  rewrite Hbrk in Hbrk'. injection Hbrk' as <- <-.
  assert (Hbefore : exists before,
            circuitBreaker w3 !! aiEndpoint = Some before /\ isOpen before = false).
  { destruct (circuitBreaker w2 !! aiEndpoint) as [b|].
    - destruct (isOpen b && _)%bool; destruct Hcase as [Hclosed ->]; [eauto|].
      exists b. split; [reflexivity|]. destruct (isOpen b); [discriminate | reflexivity].
    - destruct Hcase as [_ ->]. eauto. }
  destruct Hbefore as (before & Hb & Hclosed). exists before.
  split; [exact Hb|]. split; [exact Hclosed|].
  destruct (upstreamCall_maps env input w3) as (_ & _ & Hb4). rewrite Hup in Hb4. cbn [snd] in Hb4.
  destruct (recover_run input startTime reason w4) as (r & w' & -> & _ & _ & _ & _ & Hnew & _).
  cbn [snd]. rewrite Hnew, Hb4, Hb. cbn [default]. unfold id. rewrite Hclosed.
  destruct (failures before + 1 >=? 3); reflexivity.
Qed.

(** X6. A fallback produced by exhausted retries is cached under the
    request's key for five minutes, and until then a further call with
    that key is answered with the very same fallback, with no upstream
    attempt, whatever the upstream would now say. *)
Theorem failure_is_replayed input w startTime w1 w2 w3 e w4 key :
  rateGate env input w = ((startTime, true), w1) ->
  idempotencyCheck env input w1 = (None, w2) ->
  checkCircuitBreaker env aiEndpoint w2 = (true, w3) ->
  upstreamCall env input w3 = (Threw e, w4) ->
  keyGiven (idempotencyKey input) = Some key ->
  exists r w',
    processMessage env input w = (Returned r, w') /\
    model (metadata r) = "fallback" /\
    requestCache w' !! key
      = Some {| data := r; expiresAt := clock env (3 + ticks w4) + 300000 |} /\
    forall input2 startTime2 w1',
      keyGiven (idempotencyKey input2) = Some key ->
      rateGate env input2 w' = ((startTime2, true), w1') ->
      clock env (ticks w1') < clock env (3 + ticks w4) + 300000 ->
      fst (processMessage env input2 w') = Returned r /\
      fetches (snd (processMessage env input2 w')) = fetches w'.
Proof.
  intros Hgate Hidem Hbrk Hup Hkey.
  destruct (upstreamCall_throws env _ _ _ _ Hup) as [reason ->].
  destruct (recover_run input startTime reason w4) as (r & w' & Hrec & _ & Hm & _ & _ & _ & Hcache).
  rewrite Hkey in Hcache.
  exists r, w'. rewrite processMessage_stages, Hgate. cbn [negb]. rewrite Hidem, Hbrk.
  cbn [negb]. rewrite Hup. split; [exact Hrec|]. split; [exact Hm|]. split; [exact Hcache|].
  intros input2 startTime2 w1' Hkey2 Hgate2 Hlive.
  destruct (rateGate_run env input2 w') as (? & ? & Hgate2' & _ & Hc & _ & _ & Hf & _).
  rewrite Hgate2 in Hgate2'. injection Hgate2' as _ _ <-.
  destruct (checkIdempotency_live env key w1' {| data := r; expiresAt := clock env (3 + ticks w4) + 300000 |})
    as (w2' & Hhit & _ & Hf2 & _); [rewrite Hc; exact Hcache | exact Hlive |].
  rewrite processMessage_stages, Hgate2. cbn [negb]. unfold idempotencyCheck.
  rewrite Hkey2, Hhit. cbn [fst snd data]. split; [reflexivity | congruence].
Qed.

(** X7. A call without an idempotency key (none, or the empty string)
    never reads or writes the idempotency cache. *)
Theorem keyless_call_leaves_cache input w :
  keyGiven (idempotencyKey input) = None ->
  requestCache (snd (processMessage env input w)) = requestCache w.
Proof.
  intros Hkey. rewrite processMessage_stages.
  destruct (rateGate_run env input w) as (allowed & w1 & -> & _ & Hc1 & _).
  destruct allowed; cbn [negb snd]; [|exact Hc1].
  unfold idempotencyCheck. rewrite Hkey. unfold ret at 1.
  destruct (checkCircuitBreaker_run env aiEndpoint w1) as (closed & w3 & -> & Hc3 & _).
  destruct closed; cbn [negb].
  - destruct (upstreamCall_maps env input w3) as (Hc4 & _).
    destruct (upstreamCall env input w3) as [[result|e] w4]; cbn [snd] in Hc4.
    + destruct (succeed_run env input (clock env (ticks w)) result w4) as (r & w5 & -> & _ & _ & Hc5).
      rewrite Hkey in Hc5. cbn [snd]. congruence.
    + destruct e as [reason|].
      * destruct (recover_run input (clock env (ticks w)) reason w4)
          as (r & w5 & -> & _ & _ & _ & _ & _ & Hc5).
        rewrite Hkey in Hc5. cbn [snd]. congruence.
      * unfold recover, bind, ret.
        assert (H : requestCache (snd (recordFailure env aiEndpoint w4)) = requestCache w4)
          by reflexivity.
        destruct (recordFailure env aiEndpoint w4) as [[] w5]. cbn [snd] in *. congruence.
  - destruct (createFallbackResponse_fields env (message input) (conversationId input)
                "Circuit breaker open" None w3) as (r & w4 & -> & _ & _ & _ & _ & (Hc4 & _) & _).
    cbn [snd]. congruence.
Qed.

Lemma cleanupExpired_run key w :
  let w' := snd (cleanupExpired env key w) in
  (forall other, other <> key -> requestCache w' !! other = requestCache w !! other) /\
  rateLimitMap w' = rateLimitMap w /\ circuitBreaker w' = circuitBreaker w /\
  match requestCache w !! key with
  | Some entry =>
      if expiresAt entry <=? clock env (ticks w)
      then requestCache w' !! key = None
      else requestCache w' !! key = Some entry
  | None => requestCache w' !! key = None
  end.
Proof.
  unfold_stage. fields.
  destruct (requestCache w !! key) as [entry|] eqn:Hentry; cbv beta; fields.
  - destruct (expiresAt entry <=? clock env (ticks w)); fields;
      repeat split; intros; by simplify_map_eq.
  - repeat split. exact Hentry.
Qed.

(** X8. The eviction timer of a key removes that key's entry only when
    it has expired by the time the timer fires: a live entry, for
    instance one written again with a later expiry, survives, and no
    other key is touched. *)
Theorem timer_evicts_only_expired key w :
  let w' := snd (cleanupExpired env key w) in
  (forall other, other <> key -> requestCache w' !! other = requestCache w !! other) /\
  rateLimitMap w' = rateLimitMap w /\ circuitBreaker w' = circuitBreaker w /\
  match requestCache w !! key with
  | Some entry =>
      if expiresAt entry <=? clock env (ticks w)
      then requestCache w' !! key = None
      else requestCache w' !! key = Some entry
  | None => requestCache w' !! key = None
  end.
Proof. apply cleanupExpired_run. Qed.

(** ** What a call may touch in the cache and among the breakers *)

Lemma idempotencyCheck_cache input w other :
  keyGiven (idempotencyKey input) <> Some other ->
  requestCache (snd (idempotencyCheck env input w)) !! other = requestCache w !! other.
Proof.
  intros Hother. unfold idempotencyCheck.
  destruct (keyGiven (idempotencyKey input)) as [key|]; [|reflexivity].
  assert (key <> other) by congruence.
  unfold_stage. fields. destruct (requestCache w !! key) as [entry|]; [|reflexivity].
  cbv beta. fields. destruct (expiresAt entry >? clock env (ticks w)); fields;
    [reflexivity | by simplify_map_eq].
Qed.

Lemma succeed_cache input startTime result w other :
  keyGiven (idempotencyKey input) <> Some other ->
  requestCache (snd (succeed env input startTime result w)) !! other = requestCache w !! other.
Proof.
  intros Hother. unfold_stage. fields.
  destruct (circuitBreaker w !! aiEndpoint); destruct (keyGiven (idempotencyKey input)) as [key|];
    fields; try reflexivity; assert (key <> other) by congruence; by simplify_map_eq.
Qed.

Lemma recover_cache input startTime e w other :
  keyGiven (idempotencyKey input) <> Some other ->
  requestCache (snd (recover env input startTime e w)) !! other = requestCache w !! other.
Proof.
  intros Hother. unfold_stage. fields.
  destruct e; destruct (keyGiven (idempotencyKey input)) as [key|];
    fields; try reflexivity; assert (key <> other) by congruence; by simplify_map_eq.
Qed.

Lemma processMessage_cache input w other :
  keyGiven (idempotencyKey input) <> Some other ->
  requestCache (snd (processMessage env input w)) !! other = requestCache w !! other.
Proof.
  intros Hother. rewrite processMessage_stages.
  destruct (rateGate_run env input w) as (allowed & w1 & -> & _ & Hc1 & _).
  destruct allowed; cbn [negb snd]; [|congruence].
  pose proof (idempotencyCheck_cache input w1 other Hother) as Hc2.
  destruct (idempotencyCheck env input w1) as [[hit|] w2]; cbn [snd] in *; [congruence|].
  destruct (checkCircuitBreaker_run env aiEndpoint w2) as (closed & w3 & -> & Hc3 & _).
  destruct closed; cbn [negb].
  - destruct (upstreamCall_maps env input w3) as (Hc4 & _).
    destruct (upstreamCall env input w3) as [[result|e] w4]; cbn [snd] in Hc4.
    + rewrite succeed_cache by exact Hother. congruence.
    + rewrite recover_cache by exact Hother. congruence.
  - destruct (createFallbackResponse_fields env (message input) (conversationId input)
                "Circuit breaker open" None w3) as (r & w4 & -> & _ & _ & _ & _ & (Hc4 & _) & _).
    cbn [snd]. congruence.
Qed.

(** X9. A call touches the idempotency cache only under its own key:
    every other entry is as it was. *)
Theorem cache_is_per_key input w other :
  keyGiven (idempotencyKey input) <> Some other ->
  requestCache (snd (processMessage env input w)) !! other = requestCache w !! other.
Proof. apply processMessage_cache. Qed.

Lemma processMessage_breakers input w other :
  other <> aiEndpoint ->
  circuitBreaker (snd (processMessage env input w)) !! other = circuitBreaker w !! other.
Proof.
  intros Hother. rewrite processMessage_stages.
  destruct (rateGate_run env input w) as (allowed & w1 & -> & _ & _ & Hb1 & _).
  destruct allowed; cbn [negb snd]; [|congruence].
  destruct (idempotencyCheck_frame env input w1) as (_ & Hb2 & _).
  destruct (idempotencyCheck env input w1) as [[hit|] w2]; cbn [snd] in *; [congruence|].
  destruct (checkCircuitBreaker_run env aiEndpoint w2)
    as (closed & w3 & -> & _ & _ & _ & _ & Hb3 & _).
  specialize (Hb3 other Hother).
  destruct closed; cbn [negb].
  - destruct (upstreamCall_maps env input w3) as (_ & _ & Hb4).
    destruct (upstreamCall env input w3) as [[result|e] w4]; cbn [snd] in Hb4.
    + rewrite succeed_breaker. unfold_stage. fields.
      destruct (circuitBreaker w4 !! aiEndpoint); fields; simplify_map_eq; congruence.
    + rewrite recover_breaker. unfold_stage. fields. simplify_map_eq. congruence.
  - destruct (createFallbackResponse_fields env (message input) (conversationId input)
                "Circuit breaker open" None w3) as (r & w4 & -> & _ & _ & _ & _ & (_ & _ & Hb4) & _).
    cbn [snd]. congruence.
Qed.

Lemma run_cache_keys steps : forall w,
  dom (requestCache (snd (run env steps w))) ⊆ dom (requestCache w) ∪ keysOf steps.
Proof.
  induction steps as [|s steps IH]; intros w; [cbn; set_solver|].
  rewrite run_cons. destruct s as [input|key]; cbn [step keysOf]; unfold bind, ret.
  - pose proof (processMessage_cache input w) as H.
    destruct (processMessage env input w) as [out w1]. cbn [snd] in H.
    specialize (IH w1). destruct (run env steps w1) as [rs w2]. cbn [snd] in *.
    intros k Hk. apply IH in Hk. apply elem_of_union in Hk as [Hk|Hk].
    + destruct (decide (keyGiven (idempotencyKey input) = Some k)) as [Heq|Hne].
      * rewrite Heq. set_solver.
      * apply elem_of_dom in Hk. rewrite (H k Hne) in Hk. apply elem_of_dom in Hk.
        destruct (keyGiven (idempotencyKey input)); set_solver.
    + destruct (keyGiven (idempotencyKey input)); set_solver.
  - destruct (cleanupExpired_run key w) as (Hother & _ & _ & Hkey).
    destruct (cleanupExpired env key w) as [[] w1]. cbn [snd] in *.
    specialize (IH w1). destruct (run env steps w1) as [rs w2]. cbn [snd] in *.
    intros k Hk. apply IH in Hk. apply elem_of_union in Hk as [Hk|Hk]; [|set_solver].
    apply elem_of_union_l. apply elem_of_dom in Hk. apply elem_of_dom.
    destruct (decide (k = key)) as [->|Hne]; [|rewrite <- (Hother k Hne); exact Hk].
    destruct (requestCache w !! key) as [entry|]; [eauto|].
    rewrite Hkey in Hk. destruct Hk. discriminate.
Qed.

Lemma run_breakers steps : forall w other,
  other <> aiEndpoint ->
  circuitBreaker (snd (run env steps w)) !! other = circuitBreaker w !! other.
Proof.
  induction steps as [|s steps IH]; intros w other Hother; [reflexivity|].
  rewrite run_cons. destruct s as [input|key]; cbn [step]; unfold bind, ret.
  - pose proof (processMessage_breakers input w other Hother) as H.
    destruct (processMessage env input w) as [out w1]. cbn [snd] in H.
    specialize (IH w1 other Hother). destruct (run env steps w1) as [rs w2]. cbn [snd] in *.
    congruence.
  - destruct (cleanupExpired_run key w) as (_ & _ & H & _).
    destruct (cleanupExpired env key w) as [[] w1]. cbn [snd] in *.
    specialize (IH w1 other Hother). destruct (run env steps w1) as [rs w2]. cbn [snd] in *.
    congruence.
Qed.

(** X10. What the health check reports after any run of the service
    from its start: one rate-limit entry per conversation that ever sent
    a request (entries are never removed), no more cache entries than
    distinct idempotency keys seen, and no breaker other than the one of
    'ai-api'. *)
Theorem health_after_run steps uptime :
  let w := snd (run env steps initial) in
  let status := fst (getHealthStatus env uptime w) in
  rateLimitEntries status = size (conversationsOf steps) /\
  (cacheSize status <= size (keysOf steps))%nat /\
  (forall breaker, In breaker (circuitBreakers status) -> hs_endpoint breaker = "ai-api") /\
  hs_timestamp status = clock env (ticks w) /\ hs_uptime status = uptime.
Proof.
  intros w status. subst status. unfold getHealthStatus, bind, ret, gets, dateNow.
  cbn [fst rateLimitEntries cacheSize circuitBreakers hs_timestamp hs_uptime
       requestCache rateLimitMap circuitBreaker].
  split; [|split; [|split; [|split; reflexivity]]].
  - rewrite <- size_dom. subst w. rewrite run_conversations.
    cbn [initial rateLimitMap]. rewrite dom_empty_L, (left_id_L ∅ (∪)). reflexivity.
  - rewrite <- size_dom. apply subseteq_size. subst w.
    pose proof (run_cache_keys steps initial) as H. cbn [initial requestCache] in H.
    rewrite dom_empty_L, (left_id_L ∅ (∪)) in H. exact H.
  - intros breaker Hin. apply in_map_iff in Hin as ([endpoint b] & <- & Hin).
    cbn [hs_endpoint]. apply list_elem_of_In, elem_of_map_to_list in Hin.
    destruct (decide (endpoint = aiEndpoint)) as [->|Hne]; [reflexivity|].
    subst w. rewrite (run_breakers steps initial endpoint Hne) in Hin.
    cbn in Hin. rewrite lookup_empty in Hin. discriminate.
Qed.

(** ** The request and its interpretation *)

(** X11. The context sent upstream is bounded: the system prompt first,
    then at most the last eight messages of the history in their order,
    then the current user message. *)
Theorem request_context_is_bounded message messages :
  exists older sent,
    messages = (older ++ sent)%list /\ (length sent <= 8)%nat /\
    (length sent = 8 \/ older = [])%nat /\
    requestBody message messages =
      (("system", systemPrompt, None)
       :: map (fun m => (roleName (in_role m), in_content m, in_timestamp m)) sent
       ++ [("user", message, None)])%list /\
    length (requestBody message messages) = (2 + Nat.min 8 (length messages))%nat.
Proof.
  exists (take (length messages - 8) messages), (lastN 8 messages).
  unfold requestBody, lastN.
  split; [symmetry; apply take_drop|].
  split; [rewrite length_drop; lia|].
  split.
  { rewrite length_drop. destruct (decide (8 <= length messages)%nat) as [H|H].
    - left. lia.
    - right. replace (length messages - 8)%nat with 0%nat by lia. reflexivity. }
  split; [reflexivity|].
  cbn [app length]. rewrite length_app, length_map, length_drop. cbn [length]. lia.
Qed.

(** X12. An upstream response counts as a success exactly when the
    request settled, the status was ok, the body parsed to something
    other than null and its completion is truthy. *)
Theorem upstream_success_criterion message response :
  (exists result, interpret message response = Returned result) <->
  (exists status statusText completion tokens,
     response = FetchResponse true status statusText (JsonData completion tokens) /\
     truthy completion = true).
Proof.
  split.
  - intros [result H]. unfold interpret in H.
    destruct response as [reason|ok status statusText body]; [discriminate|].
    destruct ok; cbn [negb] in H; [|discriminate].
    destruct body as [reason| |completion tokens]; try discriminate.
    destruct (truthy completion) eqn:Ht; [|discriminate]. eauto 10.
  - intros (status & statusText & completion & tokens & -> & Ht).
    unfold interpret. cbn [negb]. rewrite Ht. cbn [negb]. eauto.
Qed.

End ServerFrames.

(** * What the client can receive *)

Section ServiceReplies.

Import Server.

Variable env : Env.

Lemma idempotencyCheck_entries input w key entry :
  requestCache (snd (idempotencyCheck env input w)) !! key = Some entry ->
  requestCache w !! key = Some entry.
Proof.
  unfold idempotencyCheck.
  destruct (keyGiven (idempotencyKey input)) as [own|]; [|exact (fun H => H)].
  cbv beta iota zeta delta
    [checkIdempotency emit dateNow bind ret gets modify withCache fst snd].
  cbn [requestCache]. destruct (requestCache w !! own) as [found|] eqn:Hfound;
    [|exact (fun H => H)].
  cbv beta. cbn [requestCache ticks].
  destruct (expiresAt found >? clock env (ticks w)); cbn [requestCache snd];
    [exact (fun H => H)|].
  intros H. apply lookup_delete_Some in H. exact (proj2 H).
Qed.

Lemma succeed_entries input startTime result w r w' key entry :
  succeed env input startTime result w = (Returned r, w') ->
  requestCache w' !! key = Some entry ->
  requestCache w !! key = Some entry \/ data entry = r.
Proof.
  intros Hrun Hentry.
  destruct (succeed_run env input startTime result w) as (r0 & w0 & Heq & _ & _ & Hcache).
  rewrite Heq in Hrun. injection Hrun as <- <-.
  pose proof (succeed_cache env input startTime result w key) as Hother.
  rewrite Heq in Hother. cbn [snd] in Hother.
  destruct (keyGiven (idempotencyKey input)) as [own|].
  - destruct (decide (key = own)) as [->|Hne].
    + rewrite Hcache in Hentry. injection Hentry as <-. right. reflexivity.
    + left. rewrite <- Hother by congruence. exact Hentry.
  - left. rewrite <- Hcache. exact Hentry.
Qed.

Lemma recover_entries input startTime reason w r w' key entry :
  recover env input startTime (ErrorObj reason) w = (Returned r, w') ->
  requestCache w' !! key = Some entry ->
  requestCache w !! key = Some entry \/ data entry = r.
Proof.
  intros Hrun Hentry.
  destruct (recover_run env input startTime reason w)
    as (r0 & w0 & Heq & _ & _ & _ & _ & _ & Hcache).
  rewrite Heq in Hrun. injection Hrun as <- <-.
  pose proof (recover_cache env input startTime (ErrorObj reason) w key) as Hother.
  rewrite Heq in Hother. cbn [snd] in Hother.
  destruct (keyGiven (idempotencyKey input)) as [own|].
  - destruct (decide (key = own)) as [->|Hne].
    + rewrite Hcache in Hentry. injection Hentry as <-. right. reflexivity.
    + left. rewrite <- Hother by congruence. exact Hentry.
  - left. rewrite <- Hcache. exact Hentry.
Qed.

Lemma processMessage_succeeds input w :
  cacheSucceeds w ->
  cacheSucceeds (snd (processMessage env input w)) /\
  forall r, fst (processMessage env input w) = Returned r -> success r = true.
Proof.
  intros Hw. rewrite processMessage_stages.
  destruct (rateGate_run env input w) as (allowed & w1 & -> & _ & Hc1 & _).
  assert (H1 : cacheSucceeds w1) by (intros k e; rewrite Hc1; apply Hw).
  destruct allowed; cbn [negb]; [|split; [exact H1 | discriminate]].
  pose proof (idempotencyCheck_entries input w1) as Hsub.
  destruct (idempotencyCheck env input w1) as [[hit|] w2] eqn:Hidem; cbn [snd] in Hsub.
  - split; [intros k e Hk; exact (H1 k e (Hsub k e Hk))|]. intros r [= <-].
    unfold idempotencyCheck in Hidem.
    destruct (keyGiven (idempotencyKey input)) as [key|]; [|discriminate].
    destruct (checkIdempotency_hit env _ _ _ _ Hidem) as (entry & Hentry & <-).
    exact (H1 key entry Hentry).
  - assert (H2 : cacheSucceeds w2) by (intros k e Hk; exact (H1 k e (Hsub k e Hk))).
    destruct (checkCircuitBreaker_run env aiEndpoint w2) as (closed & w3 & -> & Hc3 & _).
    assert (H3 : cacheSucceeds w3) by (intros k e; rewrite Hc3; apply H2).
    destruct closed; cbn [negb].
    + destruct (upstreamCall_maps env input w3) as (Hc4 & _).
      destruct (upstreamCall env input w3) as [[result|e] w4]; cbn [snd] in Hc4.
      * assert (H4 : cacheSucceeds w4) by (intros k e; rewrite Hc4; apply H3).
        destruct (succeed_fields env input (clock env (ticks w)) result w4)
          as (r & w' & Heq & Hr & _).
        rewrite Heq. cbn [fst snd]. split.
        -- intros k e Hk.
           destruct (succeed_entries _ _ _ _ _ _ _ _ Heq Hk) as [Hold | ->];
             [exact (H4 k e Hold) | exact Hr].
        -- intros r' [= <-]. exact Hr.
      * assert (H4 : cacheSucceeds w4) by (intros k e0; rewrite Hc4; apply H3).
        destruct e as [reason|].
        -- destruct (recover_fallback env input (clock env (ticks w)) reason w4)
             as (r & w' & Heq & Hr & _).
           rewrite Heq. cbn [fst snd]. split.
           ++ intros k e Hk.
              destruct (recover_entries _ _ _ _ _ _ _ _ Heq Hk) as [Hold | ->];
                [exact (H4 k e Hold) | exact Hr].
           ++ intros r' [= <-]. exact Hr.
        -- unfold recover, bind, ret.
           assert (Hc5 : requestCache (snd (recordFailure env aiEndpoint w4)) = requestCache w4)
             by reflexivity.
           destruct (recordFailure env aiEndpoint w4) as [[] w5]. cbn [fst snd] in *.
           split; [intros k e; rewrite Hc5; apply H4 | discriminate].
    + destruct (createFallbackResponse_fields env (message input) (conversationId input)
                  "Circuit breaker open" None w3)
        as (r & w' & -> & Hr & _ & _ & _ & (Hc & _) & _).
      cbn [fst snd]. split; [intros k e; rewrite Hc; apply H3|]. intros r' [= <-]. exact Hr.
Qed.

Lemma cleanupExpired_entries key w k entry :
  requestCache (snd (cleanupExpired env key w)) !! k = Some entry ->
  requestCache w !! k = Some entry.
Proof.
  destruct (cleanupExpired_run env key w) as (Hother & _ & _ & Hown). cbv zeta in Hother.
  destruct (decide (k = key)) as [->|Hne]; [|rewrite (Hother k Hne); exact (fun H => H)].
  destruct (requestCache w !! key) as [found|];
    [destruct (expiresAt found <=? clock env (ticks w))|]; rewrite Hown;
    [discriminate | exact (fun H => H) | discriminate].
Qed.

(** X23. Every response the service returns is a success: over any run
    of requests and eviction timers from its start, a call that returns
    at all (fresh, fallback or replayed from the cache) returns
    [success = true]; the only other outcome is a thrown error. *)
Theorem service_replies_are_successes steps :
  Forall (fun out => forall r, out = Some (Returned r) -> success r = true)
    (fst (run env steps initial)).
Proof.
  assert (Hgen : forall w, cacheSucceeds w ->
            Forall (fun out => forall r, out = Some (Returned r) -> success r = true)
              (fst (run env steps w))).
  { induction steps as [|s steps IH]; intros w Hw; [constructor|].
    rewrite run_cons. destruct s as [input|key]; cbn [step]; unfold bind, ret.
    - destruct (processMessage_succeeds input w Hw) as [Hw1 Hout].
      destruct (processMessage env input w) as [out w1]. cbn [fst snd] in *.
      specialize (IH w1 Hw1). destruct (run env steps w1) as [rs w2]. cbn [fst] in *.
      constructor; [|exact IH]. intros r [= ->]. apply Hout. reflexivity.
    - pose proof (cleanupExpired_entries key w) as Hsub.
      destruct (cleanupExpired env key w) as [[] w1]. cbn [snd] in Hsub.
      assert (Hw1 : cacheSucceeds w1) by (intros k e Hk; exact (Hw k e (Hsub k e Hk))).
      specialize (IH w1 Hw1). destruct (run env steps w1) as [rs w2]. cbn [fst] in *.
      constructor; [discriminate | exact IH]. }
  apply Hgen. intros key entry H. cbn in H. rewrite lookup_empty in H. discriminate.
Qed.

End ServiceReplies.

(** * Further properties of the fallback generator *)

Section FallbackFacts.

Import Fallback.

Lemma string_app_assoc (a b c : string) : (a +:+ b) +:+ c = a +:+ (b +:+ c).
Proof.
  induction a as [|x a IH]; [reflexivity|].
  change ((String x a +:+ b) +:+ c) with (String x ((a +:+ b) +:+ c)).
  rewrite IH. reflexivity.
Qed.

Lemma startsWith_append (p s : string) : startsWith p (p +:+ s) = true.
Proof.
  induction p as [|c p IH]; [reflexivity|].
  change (String c p +:+ s) with (String c (p +:+ s)).
  cbn [startsWith]. rewrite Ascii.eqb_refl. exact IH.
Qed.

Lemma includes_unfold (s needle : string) :
  includes s needle =
  (startsWith needle s ||
   match s with
   | EmptyString => false
   | String _ s' => includes s' needle
   end)%bool.
Proof. destruct s; reflexivity. Qed.

Lemma includes_here (needle s : string) : includes (needle +:+ s) needle = true.
Proof. rewrite includes_unfold, startsWith_append. reflexivity. Qed.

Lemma includes_later (p s needle : string) :
  includes s needle = true -> includes (p +:+ s) needle = true.
Proof.
  intros H. induction p as [|c p IH]; [exact H|].
  rewrite includes_unfold. change (String c p +:+ s) with (String c (p +:+ s)).
  cbv beta iota. rewrite IH. apply orb_true_r.
Qed.

(** X13. The canned reply is chosen without regard to letter case:
    two messages that agree once lower-cased, and contain a keyword, get
    the same reply. *)
Theorem fallback_ignores_case (m1 m2 : string) :
  toLowerCase m1 = toLowerCase m2 ->
  matchesKeyword m1 = true ->
  generateFallbackResponse m1 = generateFallbackResponse m2.
Proof.
  unfold matchesKeyword, generateFallbackResponse. cbv zeta. intros <- H.
  destruct (includes (toLowerCase m1) "hello"); [reflexivity|].
  destruct (includes (toLowerCase m1) "hi"); [reflexivity|].
  destruct (includes (toLowerCase m1) "code"); [reflexivity|].
  destruct (includes (toLowerCase m1) "programming"); [reflexivity|].
  destruct (includes (toLowerCase m1) "help"); [reflexivity|].
  destruct (includes (toLowerCase m1) "assist"); [reflexivity|].
  discriminate.
Qed.

(** X14. A message without any keyword is quoted back verbatim, between
    double quotes, in the canned reply; and the enhanced reply begins with
    the canned one whatever the error. *)
Theorem fallback_quotes_message (userMessage error : string) :
  matchesKeyword userMessage = false ->
  includes (generateFallbackResponse userMessage) (dquote +:+ userMessage +:+ dquote) = true /\
  startsWith (generateFallbackResponse userMessage)
    (generateEnhancedFallbackResponse userMessage error) = true.
Proof.
  intros H. split.
  - unfold matchesKeyword in H. cbv zeta in H.
    unfold generateFallbackResponse. cbv zeta.
    destruct (includes (toLowerCase userMessage) "hello"); [discriminate|].
    destruct (includes (toLowerCase userMessage) "hi"); [discriminate|].
    destruct (includes (toLowerCase userMessage) "code"); [discriminate|].
    destruct (includes (toLowerCase userMessage) "programming"); [discriminate|].
    destruct (includes (toLowerCase userMessage) "help"); [discriminate|].
    destruct (includes (toLowerCase userMessage) "assist"); [discriminate|].
    cbn [orb]. unfold otherText.
    apply includes_later.
    rewrite <- (string_app_assoc userMessage dquote).
    rewrite <- (string_app_assoc dquote (userMessage +:+ dquote)).
    apply includes_here.
  - unfold generateEnhancedFallbackResponse. cbv zeta. apply startsWith_append.
Qed.

End FallbackFacts.

(** * Further properties of the chat context *)

Section ClientPipeline.

Import Client.

Variable env : Env.

Ltac unfold_client :=
  cbv beta iota zeta delta
    [sendMessage processOfflineQueue handleFailure showReply saveOfflineQueue
     chooseConversation setCurrentConversationId setMessages setIsSending
     setStreamingMessage setIsStreaming setConnectionStatus storeQueue perform dateNow
     mutateAsync setItem when bind ret gets modify fst snd].

Ltac chat_fields :=
  cbn [currentConversationId messages isSending streamingMessage isStreaming
       offlineQueue connectionStatus storedQueue effects ticks calls writes fst snd].

(** ** The progressive reveal *)

Lemma string_app_nil_r (s : string) : s +:+ EmptyString = s.
Proof.
  induction s as [|c s IH]; [reflexivity|].
  change (String c s +:+ EmptyString) with (String c (s +:+ EmptyString)).
  rewrite IH. reflexivity.
Qed.

Lemma splitSpaces_cons (s : string) : exists chunk chunks, splitSpaces s = chunk :: chunks.
Proof.
  induction s as [|c s (chunk & chunks & IH)]; [eexists _, _; reflexivity|].
  cbn [splitSpaces]. rewrite IH. destruct (Ascii.eqb c " "); eexists _, _; reflexivity.
Qed.

(** [split(' ')] and [join(' ')] are inverse on any text. *)
Lemma joinSpaces_splitSpaces (s : string) : joinSpaces (splitSpaces s) = s.
Proof.
  induction s as [|c s IH]; [reflexivity|].
  cbn [splitSpaces]. destruct (splitSpaces_cons s) as (chunk & chunks & Hs).
  rewrite Hs in *. destruct (Ascii.eqb c " ") eqn:Hc.
  - apply Ascii.eqb_eq in Hc. subst c.
    change (joinSpaces (EmptyString :: chunk :: chunks))
      with (EmptyString +:+ " " +:+ joinSpaces (chunk :: chunks)).
    rewrite IH. reflexivity.
  - destruct chunks as [|next chunks].
    + cbn [joinSpaces] in *. rewrite IH. reflexivity.
    + change (joinSpaces (String c chunk :: next :: chunks))
        with (String c (chunk +:+ " " +:+ joinSpaces (next :: chunks))).
      change (joinSpaces (chunk :: next :: chunks))
        with (chunk +:+ " " +:+ joinSpaces (next :: chunks)) in IH.
      rewrite IH. reflexivity.
Qed.

(** The loop of the reveal: each pass sets the buffer to the text so far;
    at the end the buffer holds the chunks joined by spaces. *)
Lemma reveal_run chunks : forall first currentText c,
  chunks <> [] ->
  reveal chunks first currentText c =
  (tt, withStreaming
         (currentText +:+ (if first then EmptyString else " ") +:+ joinSpaces chunks) c).
Proof.
  induction chunks as [|chunk rest IH]; intros first currentText c Hne; [congruence|].
  cbn [reveal]. unfold bind at 1. unfold setStreamingMessage at 1, modify.
  destruct rest as [|next rest].
  - cbn [reveal joinSpaces]. unfold ret. reflexivity.
  - rewrite IH by discriminate.
    change (joinSpaces (chunk :: next :: rest))
      with (chunk +:+ " " +:+ joinSpaces (next :: rest)).
    unfold withStreaming. chat_fields.
    rewrite !string_app_assoc. reflexivity.
Qed.

(** X15. The progressive reveal ends on the whole reply: after the last
    chunk the streaming buffer holds exactly the reply's text, and nothing
    but the buffer has changed. *)
Theorem reveal_ends_on_full_text text c :
  reveal (splitSpaces text) true EmptyString c = (tt, withStreaming text c).
Proof.
  destruct (splitSpaces_cons text) as (chunk & chunks & Hs).
  rewrite reveal_run by (rewrite Hs; discriminate).
  rewrite joinSpaces_splitSpaces. reflexivity.
Qed.

Lemma showReply_run result c :
  showReply result c =
  (tt, {| currentConversationId := currentConversationId c;
          messages := messages c ++ [res_message result];
          isSending := isSending c; streamingMessage := EmptyString;
          isStreaming := false; offlineQueue := offlineQueue c;
          connectionStatus := connectionStatus c; storedQueue := storedQueue c;
          effects := effects c ++ [Refetched]; ticks := ticks c;
          calls := calls c; writes := writes c |}).
Proof.
  unfold showReply. unfold bind at 1.
  destruct (splitSpaces_cons (content (res_message result))) as (chunk & chunks & Hs).
  rewrite reveal_run by (rewrite Hs; discriminate).
  rewrite joinSpaces_splitSpaces.
  unfold_client. reflexivity.
Qed.

Lemma chooseConversation_run snap c :
  let fresh := "conv-" +:+ pretty (clock env (ticks c)) in
  let '(conversationId, c') := chooseConversation env snap c in
  (forall id, currentConversationId snap = Some id -> nonEmpty id = true ->
     conversationId = id /\ c' = c) /\
  (currentConversationId snap = None ->
     conversationId = fresh /\ currentConversationId c' = Some fresh) /\
  messages c' = messages c /\ isSending c' = isSending c /\
  streamingMessage c' = streamingMessage c /\ isStreaming c' = isStreaming c /\
  offlineQueue c' = offlineQueue c /\ connectionStatus c' = connectionStatus c /\
  storedQueue c' = storedQueue c /\ effects c' = effects c /\
  calls c' = calls c /\ writes c' = writes c.
Proof.
  unfold_client. destruct (currentConversationId snap) as [id|];
    [destruct (nonEmpty id) eqn:Hid|]; chat_fields; repeat split;
    try discriminate; try congruence.
  all: intros id' [= <-] Hne; congruence.
Qed.

(** X16. While offline, a send does not call the server: the message is
    shown, and when storage takes the write it is appended to the offline
    queue and its stored copy; the sending and streaming flags are not
    touched and nothing is raised. *)
Theorem offline_send_is_queued text c :
  nonEmpty (trim text) = true ->
  isSending c = false ->
  connectionStatus c = Offline ->
  let userMessage :=
    {| role := User; content := trim text; timestamp := clock env (ticks c) |} in
  let '(out, c') := sendMessage env text c in
  out = Returned tt /\
  messages c' = (messages c ++ [userMessage])%list /\
  calls c' = calls c /\ effects c' = effects c /\
  isSending c' = false /\ isStreaming c' = isStreaming c /\
  connectionStatus c' = Offline /\
  if storage env (writes c)
  then offlineQueue c' = (offlineQueue c ++ [userMessage])%list /\
       storedQueue c' = Some (offlineQueue c ++ [userMessage])%list
  else offlineQueue c' = offlineQueue c /\ storedQueue c' = storedQueue c.
Proof.
  intros Htext Hidle Hoff userMessage. subst userMessage.
  unfold sendMessage. unfold bind at 1. unfold gets. cbv beta iota.
  rewrite Htext, Hidle, Hoff. cbn [negb orb].
  unfold_client. chat_fields.
  destruct (storage env (writes c)); chat_fields; repeat split; assumption.
Qed.

Ltac enter_send Htext Hidle Honline :=
  unfold sendMessage; unfold bind at 1; unfold gets; cbv beta iota;
  rewrite Htext, Hidle; cbn [negb orb];
  unfold bind at 1; unfold dateNow at 1; cbv beta iota;
  unfold bind at 1; unfold setMessages at 1, modify; cbv beta iota;
  match goal with |- context [connectionStatus ?c] =>
    let Hbody := fresh "Hbody" in
    assert (Hbody : forall A (k1 k2 : State Chat A) s,
              match connectionStatus c with Offline => k1 | _ => k2 end s = k2 s)
      by (intros A k1 k2 s; destruct (connectionStatus c);
          [reflexivity | congruence | reflexivity]);
    rewrite Hbody; clear Hbody
  end;
  unfold bind at 1; unfold setIsSending at 1, modify; cbv beta iota;
  unfold bind at 1; unfold setIsStreaming at 1, modify; cbv beta iota;
  unfold bind at 1; unfold setStreamingMessage at 1, modify; cbv beta iota; chat_fields;
  unfold bind at 1.

(** X17. A send that the server answers with [success = true]: the
    request carries the trimmed text, the history with the new message at
    its end and the key 'msg-<timestamp>'; afterwards the list holds the
    user message and then the reply, the streaming buffer is empty, the
    streaming and sending flags are down, the conversations are refetched
    and the offline queue is untouched. *)
Theorem successful_send text c result :
  nonEmpty (trim text) = true ->
  isSending c = false ->
  connectionStatus c <> Offline ->
  server env (calls c) = Resolved result ->
  success result = true ->
  let userMessage :=
    {| role := User; content := trim text; timestamp := clock env (ticks c) |} in
  let '(out, c') := sendMessage env text c in
  out = Returned tt /\
  messages c' = (messages c ++ [userMessage; res_message result])%list /\
  streamingMessage c' = EmptyString /\ isStreaming c' = false /\ isSending c' = false /\
  offlineQueue c' = offlineQueue c /\ storedQueue c' = storedQueue c /\
  connectionStatus c' = connectionStatus c /\
  exists conversationId,
    effects c' =
      (effects c ++
       [Sent {| req_conversationId := conversationId;
                req_message := trim text;
                req_messages := messages c ++ [userMessage];
                req_idempotencyKey := Some ("msg-" +:+ pretty (clock env (ticks c))) |};
        Refetched])%list /\
    (forall id, currentConversationId c = Some id -> nonEmpty id = true ->
       conversationId = id) /\
    (currentConversationId c = None ->
       conversationId = "conv-" +:+ pretty (clock env (S (ticks c))) /\
       currentConversationId c' = Some conversationId).
Proof.
  intros Htext Hidle Honline Hreply Hsucc userMessage. subst userMessage.
  enter_send Htext Hidle Honline.
  match goal with |- context [chooseConversation env c ?s] =>
    pose proof (chooseConversation_run c s) as Hrun;
    destruct (chooseConversation env c s) as [conversationId c1] end.
  cbv zeta in Hrun. chat_fields. cbn in Hrun.
  destruct Hrun as (Hknown & Hfresh & Hm & Hs & Hsm & Hst & Hq & Hcs & Hsq & He & Hc & Hw).
  unfold bind at 1. unfold mutateAsync at 1. cbv beta iota. rewrite Hc, Hreply.
  unfold bind at 1. unfold bind at 1. unfold when. rewrite Hsucc.
  rewrite showReply_run.
  unfold bind, setIsSending, modify, ret. chat_fields.
  split; [reflexivity|].
  split. { rewrite Hm, <- app_assoc. reflexivity. }
  split; [reflexivity|]. split; [reflexivity|]. split; [reflexivity|].
  split; [exact Hq|]. split; [exact Hsq|]. split; [exact Hcs|].
  exists conversationId. split. { rewrite He, <- app_assoc. reflexivity. }
  split.
  - intros id Hid Hne. exact (proj1 (Hknown id Hid Hne)).
  - intros Hnone. destruct (Hfresh Hnone) as [-> Hset]. split; [reflexivity | exact Hset].
Qed.

(** X18. A reply with [success = false] is neither shown nor treated as
    a failure: the user message stays in the list without a reply, nothing
    is raised, the sending flag is released, and the streaming flag is
    left set. *)
Theorem declined_reply_leaves_streaming text c result :
  nonEmpty (trim text) = true ->
  isSending c = false ->
  connectionStatus c <> Offline ->
  server env (calls c) = Resolved result ->
  success result = false ->
  let userMessage :=
    {| role := User; content := trim text; timestamp := clock env (ticks c) |} in
  let '(out, c') := sendMessage env text c in
  out = Returned tt /\
  messages c' = (messages c ++ [userMessage])%list /\
  streamingMessage c' = EmptyString /\ isStreaming c' = true /\ isSending c' = false /\
  offlineQueue c' = offlineQueue c /\ storedQueue c' = storedQueue c /\
  connectionStatus c' = connectionStatus c.
Proof.
  intros Htext Hidle Honline Hreply Hsucc userMessage. subst userMessage.
  enter_send Htext Hidle Honline.
  match goal with |- context [chooseConversation env c ?s] =>
    pose proof (chooseConversation_run c s) as Hrun;
    destruct (chooseConversation env c s) as [conversationId c1] end.
  cbv zeta in Hrun. chat_fields. cbn in Hrun.
  destruct Hrun as (_ & _ & Hm & Hs & Hsm & Hst & Hq & Hcs & Hsq & He & Hc & Hw).
  unfold bind at 1. unfold mutateAsync at 1. cbv beta iota. rewrite Hc, Hreply.
  unfold bind at 1. unfold bind at 1. unfold when. rewrite Hsucc.
  unfold bind, setIsSending, modify, ret. chat_fields.
  repeat split; assumption.
Qed.

(** ** Draining the offline queue *)








(** ** The drain, reply by reply *)






(** ** What a send and a drain keep *)

(** The guard of [sendMessage]: blank text or a send in flight. *)
Lemma sendMessage_guard text c :
  nonEmpty (trim text) = false \/ isSending c = true ->
  sendMessage env text c = (Returned tt, c).
Proof.
  intros Hguard. unfold sendMessage. unfold bind at 1. unfold gets. cbv beta iota.
  destruct Hguard as [-> | ->]; [reflexivity|].
  rewrite orb_true_r. reflexivity.
Qed.

Lemma handleFailure_counts snap userMessage error c :
  let c' := snd (handleFailure env snap userMessage error c) in
  calls c' = calls c /\ isSending c' = isSending c /\
  (writes c <= writes c' <= S (writes c))%nat.
Proof.
  unfold handleFailure. destruct (isNetworkError error); unfold_client; chat_fields;
    [destruct (storage env (writes c))|]; chat_fields; repeat split; lia.
Qed.

Lemma sendMessage_online_kept text c :
  nonEmpty (trim text) = true -> isSending c = false ->
  connectionStatus c <> Offline ->
  let '(_, c') := sendMessage env text c in
  isSending c' = false /\ calls c' = S (calls c) /\
  (writes c <= writes c' <= S (writes c))%nat /\
  (storedCopyAgrees c -> storedCopyAgrees c').
Proof.
  intros Htext Hidle Honline.
  enter_send Htext Hidle Honline.
  match goal with |- context [chooseConversation env c ?s] =>
    pose proof (chooseConversation_run c s) as Hrun;
    destruct (chooseConversation env c s) as [conversationId c1] end.
  cbv zeta in Hrun. chat_fields. cbn in Hrun.
  destruct Hrun as (_ & _ & Hm & Hs & Hsm & Hst & Hq & Hcs & Hsq & He & Hc & Hw).
  unfold bind at 1. unfold mutateAsync at 1. cbv beta iota. rewrite Hc.
  destruct (server env (calls c)) as [result|error].
  - unfold bind at 1. unfold bind at 1. unfold when.
    destruct (success result).
    + rewrite showReply_run. unfold bind, setIsSending, modify, ret. chat_fields.
      unfold storedCopyAgrees. chat_fields. rewrite ?Hc, ?Hw, ?Hq, ?Hsq.
      repeat split; try lia. auto.
    + unfold bind, setIsSending, modify, ret. chat_fields.
      unfold storedCopyAgrees. chat_fields. rewrite ?Hc, ?Hw, ?Hq, ?Hsq.
      repeat split; try lia. auto.
  - unfold bind at 1.
    match goal with |- context [handleFailure env c ?u error ?s] =>
      pose proof (handleFailure_run env c u error s) as Hcatch;
      pose proof (handleFailure_counts c u error s) as Hcalls;
      destruct (handleFailure env c u error s) as [out c2] end.
    chat_fields.
    cbn [messages offlineQueue storedQueue connectionStatus writes isSending calls snd] in Hcatch, Hcalls.
    destruct Hcatch as (_ & _ & _ & Hcase). destruct Hcalls as (Hc2 & _ & Hw2).
    unfold bind, setIsSending, modify, ret. chat_fields.
    unfold storedCopyAgrees. chat_fields. rewrite ?Hc2, ?Hc. rewrite Hw in Hw2, Hcase.
    repeat split; try lia.
    intros Hagree queue. rewrite Hq, Hsq in Hcase.
    destruct (isNetworkError error).
    + destruct Hcase as (_ & _ & Hstore).
      destruct (storage env (writes c)); destruct Hstore as [-> ->]; [congruence | apply Hagree].
    + destruct Hcase as (_ & -> & -> & _). apply Hagree.
Qed.

(** X21. Whatever the text, the state and the server's answer, a send
    leaves the sending flag as it found it, keeps the stored copy of the
    offline queue equal to the queue, and makes at most one request and at
    most one write of the queue to storage. *)
Theorem send_keeps_flag_and_stored_copy text c :
  storedCopyAgrees c ->
  let '(_, c') := sendMessage env text c in
  storedCopyAgrees c' /\ isSending c' = isSending c /\
  (calls c <= calls c' <= S (calls c))%nat /\
  (writes c <= writes c' <= S (writes c))%nat.
Proof.
  intros Hagree.
  destruct (nonEmpty (trim text)) eqn:Htext;
    [|rewrite sendMessage_guard by (left; exact Htext); repeat split; try assumption; lia].
  destruct (isSending c) eqn:Hidle;
    [rewrite sendMessage_guard by (right; exact Hidle); repeat split; try assumption; lia|].
  assert (Hcase : connectionStatus c = Offline \/ connectionStatus c <> Offline)
    by (destruct (connectionStatus c); [right | left | right]; congruence).
  destruct Hcase as [Hoff | Honline].
  - unfold sendMessage. unfold bind at 1. unfold gets. cbv beta iota.
    rewrite Htext, Hidle, Hoff. cbn [negb orb].
    unfold_client. chat_fields. unfold storedCopyAgrees.
    destruct (storage env (writes c)); chat_fields; repeat split; try lia; try assumption.
    congruence.
  - pose proof (sendMessage_online_kept text c Htext Hidle Honline) as Hkept.
    destruct (sendMessage env text c) as [out c'].
    destruct Hkept as (Hs & Hc & Hw & Hstored).
    split; [exact (Hstored Hagree)|]. repeat split; try assumption; lia.
Qed.




(** ** The drain against a server whose replies are successes *)




End ClientPipeline.

(** * The further properties on concrete runs *)

Section ServerFrameExamples.

Import Server Scenario Fallback.

Lemma windows_are_per_conversation_witness :
  "conv-2" <> conversationId hello /\
  rateLimitMap (snd (processMessage (steady 1000 okReply) hello neighbour)) !! "conv-2"
  = Some {| count := 3; resetTime := 61000 |}.
Proof.
  assert (H : "conv-2" <> conversationId hello) by discriminate.
  split; [exact H|].
  rewrite (windows_are_per_conversation (steady 1000 okReply) hello neighbour "conv-2" H).
  reflexivity.
Defined.

Lemma rejection_is_not_counted_witness :
  fst (processMessage (steady 1000 okReply) hello saturated) = Threw rateLimitError /\
  rateLimitMap (snd (processMessage (steady 1000 okReply) hello saturated)) !! "conv-1"
  = Some {| count := 15; resetTime := 61000 |}.
Proof.
  assert (H : fst (processMessage (steady 1000 okReply) hello saturated) = Threw rateLimitError)
    by (vm_compute; reflexivity).
  split; [exact H|].
  rewrite (rejection_is_not_counted (steady 1000 okReply) hello saturated rateLimitError H).
  reflexivity.
Defined.

Lemma failures_are_counted_witness :
  circuitBreaker (snd (processMessage (steady 1000 serverError) hello initial)) !! aiEndpoint
  = Some {| failures := 1; lastFailure := 1000; isOpen := false |}.
Proof.
  assert (H1 := pair_with_flag (rateGate (steady 1000 serverError) hello initial) true
                  ltac:(vm_compute; reflexivity)).
  assert (H2 := pair_with_fst
                  (idempotencyCheck (steady 1000 serverError) hello
                     (snd (rateGate (steady 1000 serverError) hello initial))) None
                  ltac:(vm_compute; reflexivity)).
  assert (H3 := pair_with_fst
                  (checkCircuitBreaker (steady 1000 serverError) aiEndpoint
                     (snd (idempotencyCheck (steady 1000 serverError) hello
                        (snd (rateGate (steady 1000 serverError) hello initial))))) true
                  ltac:(vm_compute; reflexivity)).
  assert (H4 := pair_with_fst
                  (upstreamCall (steady 1000 serverError) hello
                     (snd (checkCircuitBreaker (steady 1000 serverError) aiEndpoint
                        (snd (idempotencyCheck (steady 1000 serverError) hello
                           (snd (rateGate (steady 1000 serverError) hello initial)))))))
                  (Threw http500)
                  ltac:(vm_compute; reflexivity)).
  destruct (failures_are_counted (steady 1000 serverError) hello initial _ _ _ _ _ _
              H1 H2 H3 H4) as (before & Hb & _ & Hnew).
  assert (Hfresh : circuitBreaker
                     (snd (checkCircuitBreaker (steady 1000 serverError) aiEndpoint
                        (snd (idempotencyCheck (steady 1000 serverError) hello
                           (snd (rateGate (steady 1000 serverError) hello initial))))))
                     !! aiEndpoint = Some freshBreaker) by (vm_compute; reflexivity).
  rewrite Hfresh in Hb. injection Hb as <-. exact Hnew.
Defined.

Lemma failure_is_replayed_witness :
  exists r w',
    processMessage (steady 1000 serverError) helloKeyed initial = (Returned r, w') /\
    model (metadata r) = "fallback" /\
    requestCache w' !! "msg-1" = Some {| data := r; expiresAt := 1000 + 300000 |}.
Proof.
  assert (H1 := pair_with_flag (rateGate (steady 1000 serverError) helloKeyed initial) true
                  ltac:(vm_compute; reflexivity)).
  assert (H2 := pair_with_fst
                  (idempotencyCheck (steady 1000 serverError) helloKeyed
                     (snd (rateGate (steady 1000 serverError) helloKeyed initial))) None
                  ltac:(vm_compute; reflexivity)).
  assert (H3 := pair_with_fst
                  (checkCircuitBreaker (steady 1000 serverError) aiEndpoint
                     (snd (idempotencyCheck (steady 1000 serverError) helloKeyed
                        (snd (rateGate (steady 1000 serverError) helloKeyed initial))))) true
                  ltac:(vm_compute; reflexivity)).
  assert (H4 := pair_with_fst
                  (upstreamCall (steady 1000 serverError) helloKeyed
                     (snd (checkCircuitBreaker (steady 1000 serverError) aiEndpoint
                        (snd (idempotencyCheck (steady 1000 serverError) helloKeyed
                           (snd (rateGate (steady 1000 serverError) helloKeyed initial)))))))
                  (Threw http500)
                  ltac:(vm_compute; reflexivity)).
  destruct (failure_is_replayed (steady 1000 serverError) helloKeyed initial _ _ _ _ _ _ "msg-1"
              H1 H2 H3 H4 eq_refl) as (r & w' & Hrun & Hmodel & Hcache & _).
  exists r, w'. split; [exact Hrun|]. split; [exact Hmodel | exact Hcache].
Defined.

Lemma keyless_call_leaves_cache_witness :
  keyGiven (idempotencyKey helloEmptyKey) = None /\
  requestCache (snd (processMessage (steady 1000 okReply) helloEmptyKey remembered))
  = requestCache remembered.
Proof.
  split; [reflexivity|].
  exact (keyless_call_leaves_cache (steady 1000 okReply) helloEmptyKey remembered eq_refl).
Defined.

Lemma cache_is_per_key_witness :
  keyGiven (idempotencyKey helloAgain) <> Some "msg-1" /\
  requestCache (snd (processMessage (steady 1000 okReply) helloAgain remembered)) !! "msg-1"
  = Some storedEntry.
Proof.
  assert (H : keyGiven (idempotencyKey helloAgain) <> Some "msg-1") by discriminate.
  split; [exact H|].
  rewrite (cache_is_per_key (steady 1000 okReply) helloAgain remembered "msg-1" H).
  reflexivity.
Defined.

Lemma fallback_ignores_case_witness :
  generateFallbackResponse "HELLO there" = generateFallbackResponse "hello THERE".
Proof.
  apply fallback_ignores_case; vm_compute; reflexivity.
Defined.

Lemma fallback_quotes_message_witness :
  matchesKeyword "weather" = false /\
  includes (generateFallbackResponse "weather") (dquote +:+ "weather" +:+ dquote) = true.
Proof.
  assert (H : matchesKeyword "weather" = false) by (vm_compute; reflexivity).
  split; [exact H|].
  exact (proj1 (fallback_quotes_message "weather" "timeout" H)).
Defined.

End ServerFrameExamples.

Section ClientPipelineExamples.

Import Client ClientScenario.

Lemma offline_send_is_queued_witness :
  offlineQueue (snd (sendMessage (failing "down" true) "  hi  " (chat Offline [])))
  = [{| role := User; content := "hi"; timestamp := 5 |}] /\
  calls (snd (sendMessage (failing "down" true) "  hi  " (chat Offline []))) = 0%nat.
Proof.
  pose proof (offline_send_is_queued (failing "down" true) "  hi  " (chat Offline [])
                eq_refl eq_refl eq_refl) as H.
  cbv zeta in H.
  destruct (sendMessage (failing "down" true) "  hi  " (chat Offline [])) as [out c'].
  cbn [fst snd]. destruct H as (_ & _ & Hcalls & _ & _ & _ & _ & Hqueue).
  cbn [storage failing] in Hqueue. destruct Hqueue as [Hq _].
  split; [exact Hq | exact Hcalls].
Defined.

Lemma successful_send_witness :
  messages (snd (sendMessage (accepting replyA) "  hi  " (chat Online [])))
  = [{| role := User; content := "hi"; timestamp := 5 |}; replyA] /\
  isStreaming (snd (sendMessage (accepting replyA) "  hi  " (chat Online []))) = false.
Proof.
  assert (H3 : connectionStatus (chat Online []) <> Offline) by discriminate.
  pose proof (successful_send (accepting replyA) "  hi  " (chat Online [])
                {| success := true; res_message := replyA |}
                eq_refl eq_refl H3 eq_refl eq_refl) as H.
  cbv zeta in H.
  destruct (sendMessage (accepting replyA) "  hi  " (chat Online [])) as [out c'].
  cbn [fst snd]. destruct H as (_ & Hm & _ & Hst & _).
  split; [exact Hm | exact Hst].
Defined.

Lemma declined_reply_leaves_streaming_witness :
  isStreaming (snd (sendMessage declinedThenAccepted "  hi  " (chat Online []))) = true /\
  isSending (snd (sendMessage declinedThenAccepted "  hi  " (chat Online []))) = false.
Proof.
  assert (H3 : connectionStatus (chat Online []) <> Offline) by discriminate.
  pose proof (declined_reply_leaves_streaming declinedThenAccepted "  hi  " (chat Online [])
                {| success := false; res_message := replyA |}
                eq_refl eq_refl H3 eq_refl eq_refl) as H.
  cbv zeta in H.
  destruct (sendMessage declinedThenAccepted "  hi  " (chat Online [])) as [out c'].
  cbn [fst snd]. destruct H as (_ & _ & _ & Hst & Hs & _).
  split; [exact Hst | exact Hs].
Defined.



Lemma send_keeps_flag_and_stored_copy_witness :
  storedCopyAgrees (chat Online []) /\
  storedCopyAgrees (snd (sendMessage (failing "Failed to fetch" true) "  hi  " (chat Online []))).
Proof.
  assert (H : storedCopyAgrees (chat Online []))
    by (intros queue Hq; injection Hq as <-; reflexivity).
  split; [exact H|].
  pose proof (send_keeps_flag_and_stored_copy (failing "Failed to fetch" true) "  hi  "
                (chat Online []) H) as Hkept.
  destruct (sendMessage (failing "Failed to fetch" true) "  hi  " (chat Online [])) as [out c'].
  exact (proj1 Hkept).
Defined.



End ClientPipelineExamples.
